(** * NFL Beer Fantasy: the scoring pipeline

    A shallow embedding of the scoring functions of
    [old_files_backup/app copy 8.py] and [old_files_backup/app.py]:

    - [is_prime_game]                          (identical in both files)
    - [calcular_e_atualizar_pontuacoes_jogo]   (the Game Scorer, two variants)
    - [todos_jogos_semana_finalizados]         (identical in both files)
    - [calcular_pontos_f1_por_rodada]          (the Round Ranker, two variants)

    The relational store is a record of tables, each table a list of rows.
    Functions that stage writes in the SQLAlchemy session take the store and
    return the store as the session would flush it. *)

From Stdlib Require Import ZArith List String Bool Lia Permutation.
From Stdlib Require Import DecimalString DecimalPos.
Import ListNotations.
Local Open Scope string_scope.
Local Open Scope list_scope.
Local Open Scope Z_scope.

(** ** Python's [datetime]: the part [is_prime_game] reads *)

Module DateTime.

Record t := mk {
  year : Z;
  month : Z;
  day : Z;
  hour : Z;
  minute : Z;
  second : Z
}.

(** [datetime._is_leap] *)
Definition is_leap (y : Z) : bool :=
  (y mod 4 =? 0) && (negb (y mod 100 =? 0) || (y mod 400 =? 0)).

(** [datetime._days_before_year]: days before January 1st of year [y]. *)
Definition days_before_year (y : Z) : Z :=
  let y' := y - 1 in
  y' * 365 + y' / 4 - y' / 100 + y' / 400.

(** [datetime._DAYS_BEFORE_MONTH], indexed by the month number. *)
Definition DAYS_BEFORE_MONTH : list Z :=
  [0; 0; 31; 59; 90; 120; 151; 181; 212; 243; 273; 304; 334].

(** [datetime._days_before_month] *)
Definition days_before_month (y m : Z) : Z :=
  nth (Z.to_nat m) DAYS_BEFORE_MONTH 0
  + (if (2 <? m) && is_leap y then 1 else 0).

(** [date.toordinal]: January 1st of year 1 is day 1. *)
Definition toordinal (d : t) : Z :=
  days_before_year (year d) + days_before_month (year d) (month d) + day d.

(** [date.weekday]: Monday is 0, Sunday is 6. *)
Definition weekday (d : t) : Z := (toordinal d + 6) mod 7.

Definition Monday : Z := 0.
Definition Tuesday : Z := 1.
Definition Wednesday : Z := 2.
Definition Thursday : Z := 3.
Definition Friday : Z := 4.
Definition Saturday : Z := 5.
Definition Sunday : Z := 6.

End DateTime.

(** ** The models (tables of the store)

    Each record lists the columns of the SQLAlchemy model.  The surrogate
    primary keys of [Palpite] and [PontuacaoRodada] and the credential columns
    of [Participante] are never read by the scoring pipeline and are left
    out. *)

Module Participante.
Record t := mk {
  id : Z;
  nome : string
}.
End Participante.

Module Jogo.
Record t := mk {
  id : Z;
  id_externo : option string;
  semana : Z;
  data_hora : DateTime.t;          (* stored in UTC *)
  time1 : string;
  time2 : string;
  resultado : option string;       (* 'time1_vence', 'time2_vence', 'empate' *)
  placar_time1_final : option Z;
  placar_time2_final : option Z
}.
End Jogo.

Module Palpite.
Record t := mk {
  participante_id : Z;
  jogo_id : Z;
  escolha : string;                (* 'time1_vence', 'time2_vence', 'empate' *)
  placar_time1 : Z;
  placar_time2 : Z;
  pontuacao_recebida : Z
}.

(** The assignment [palpite.pontuacao_recebida = v]. *)
Definition set_pontuacao_recebida (p : t) (v : Z) : t :=
  mk (participante_id p) (jogo_id p) (escolha p)
     (placar_time1 p) (placar_time2 p) v.
End Palpite.

Module PontuacaoRodada.
Record t := mk {
  participante_id : Z;
  semana : Z;
  pontos_f1 : Z
}.

(** The assignment [pontuacao_rodada.pontos_f1 = v]. *)
Definition set_pontos_f1 (r : t) (v : Z) : t :=
  mk (participante_id r) (semana r) v.
End PontuacaoRodada.

Record DB := mkDB {
  participantes : list Participante.t;
  jogos : list Jogo.t;
  palpites : list Palpite.t;
  pontuacoes_rodada : list PontuacaoRodada.t
}.

Definition com_palpites (db : DB) (ps : list Palpite.t) : DB :=
  mkDB (participantes db) (jogos db) ps (pontuacoes_rodada db).

Definition com_pontuacoes_rodada (db : DB) (rs : list PontuacaoRodada.t) : DB :=
  mkDB (participantes db) (jogos db) (palpites db) rs.

(** ** [is_prime_game] *)

Definition is_prime_game (jogo : Jogo.t) : bool :=
  (* [replace(tzinfo=timezone.utc)] keeps every field of the datetime *)
  let data_hora_utc := Jogo.data_hora jogo in
  let dia_semana_utc := DateTime.weekday data_hora_utc in
  let hora_utc := DateTime.hour data_hora_utc in
  let is_madrugada_utc := (hora_utc >=? 0) && (hora_utc <=? 4) in
  if is_madrugada_utc
     && ((dia_semana_utc =? 4) || (dia_semana_utc =? 0) || (dia_semana_utc =? 1))
  then true
  else false.

(** ** The Game Scorer *)

(** The test that opens both variants:
    [jogo.resultado is None or jogo.placar_time1_final is None or
     jogo.placar_time2_final is None]. *)
Definition sem_resultado (jogo : Jogo.t) : bool :=
  match Jogo.resultado jogo, Jogo.placar_time1_final jogo,
        Jogo.placar_time2_final jogo with
  | Some _, Some _, Some _ => false
  | _, _, _ => true
  end.

(** The body of the loop over the predictions of a finalized game: the value
    of [pontuacao_atual] when the update test is reached. *)
Definition pontuacao_atual (prime_game : bool) (resultado : string)
    (placar_time1_final placar_time2_final : Z) (palpite : Palpite.t) : Z :=
  let pontuacao_atual := 0 in
  if String.eqb (Palpite.escolha palpite) resultado then
    let pontuacao_atual := pontuacao_atual + 1 in
    let pontuacao_atual :=
      if prime_game then pontuacao_atual + 3 else pontuacao_atual in
    if (Palpite.placar_time1 palpite =? placar_time1_final)
       && (Palpite.placar_time2 palpite =? placar_time2_final)
    then pontuacao_atual + 1
    else
      let palpite_diferenca :=
        Z.abs (Palpite.placar_time1 palpite - Palpite.placar_time2 palpite) in
      let jogo_diferenca := Z.abs (placar_time1_final - placar_time2_final) in
      if palpite_diferenca =? jogo_diferenca
      then pontuacao_atual + 1
      else pontuacao_atual
  else pontuacao_atual.

(** [if palpite.pontuacao_recebida != v: palpite.pontuacao_recebida = v] *)
Definition atualizar_pontuacao (palpite : Palpite.t) (v : Z) : Palpite.t :=
  if negb (Palpite.pontuacao_recebida palpite =? v)
  then Palpite.set_pontuacao_recebida palpite v
  else palpite.

(** The rows of [Palpite.query.filter_by(jogo_id=jogo.id).all()] are mutated
    in place; every other row of the table is left as it is. *)
Definition para_palpites_do_jogo (jogo : Jogo.t)
    (f : Palpite.t -> Palpite.t) (ps : list Palpite.t) : list Palpite.t :=
  map (fun p => if Palpite.jogo_id p =? Jogo.id jogo then f p else p) ps.

(** The scoring branch, shared by the two files. *)
Definition pontuar_palpites (jogo : Jogo.t) (resultado : string)
    (placar_time1_final placar_time2_final : Z) (db : DB) : DB :=
  let prime_game := is_prime_game jogo in
  com_palpites db
    (para_palpites_do_jogo jogo
       (fun palpite =>
          atualizar_pontuacao palpite
            (pontuacao_atual prime_game resultado
               placar_time1_final placar_time2_final palpite))
       (palpites db)).

(** ** [todos_jogos_semana_finalizados] *)

Definition jogos_da_semana (semana : Z) (db : DB) : list Jogo.t :=
  filter (fun j => Jogo.semana j =? semana) (jogos db).

(** The [for] loop with its early [return False]. *)
Fixpoint todos_com_resultado (js : list Jogo.t) : bool :=
  match js with
  | [] => true
  | jogo :: resto =>
      if sem_resultado jogo then false else todos_com_resultado resto
  end.

Definition todos_jogos_semana_finalizados (semana : Z) (db : DB) : bool :=
  let jogos_na_semana := jogos_da_semana semana db in
  match jogos_na_semana with
  | [] => false
  | _ => todos_com_resultado jogos_na_semana
  end.

(** ** The Round Ranker: what the two files share *)

Definition pontos_f1_tabela : list Z := [25; 18; 15; 12; 10; 8; 6; 4; 2; 1].

(** A row of the aggregate query:
    [(Participante.id, Participante.nome, total_pontos_raw)]. *)
Definition Linha : Type := Z * string * Z.

Definition linha_id (l : Linha) : Z := fst (fst l).
Definition linha_total (l : Linha) : Z := snd l.

(** [Participante JOIN Palpite JOIN Jogo WHERE Jogo.semana = semana]: the
    [pontuacao_recebida] of every joined row of one participant. *)
Definition pontos_do_participante (semana : Z) (db : DB)
    (p : Participante.t) : list Z :=
  flat_map
    (fun pl =>
       if Palpite.participante_id pl =? Participante.id p then
         map (fun _ => Palpite.pontuacao_recebida pl)
           (filter (fun j => (Jogo.id j =? Palpite.jogo_id pl)
                             && (Jogo.semana j =? semana))
                   (jogos db))
       else [])
    (palpites db).

Definition soma (l : list Z) : Z := fold_right Z.add 0 l.

(** [GROUP BY Participante.id, Participante.nome] with
    [SUM(Palpite.pontuacao_recebida)]: a participant without a joined row has
    no group.  [pontuacao_recebida] is created with the column default 0 and
    written by the Game Scorer only, so no sum is NULL. *)
Definition grupos (semana : Z) (db : DB) : list Linha :=
  flat_map
    (fun p =>
       match pontos_do_participante semana db p with
       | [] => []
       | pts => [(Participante.id p, Participante.nome p, soma pts)]
       end)
    (participantes db).

(** [ORDER BY SUM(...) DESC], as a stable insertion sort: the order of equal
    totals is the store's. *)
Fixpoint inserir_desc (x : Linha) (l : list Linha) : list Linha :=
  match l with
  | [] => [x]
  | y :: l' =>
      if linha_total y <=? linha_total x
      then x :: y :: l'
      else y :: inserir_desc x l'
  end.

Definition ordenar_desc (l : list Linha) : list Linha :=
  fold_right inserir_desc [] l.

Definition pontuacoes_raw_por_participante (semana : Z) (db : DB)
    : list Linha :=
  ordenar_desc (grupos semana db).

(** [pontos_f1_tabela[posicao_atual]] inside the table, 0 outside. *)
Definition pontos_da_posicao (posicao_atual : nat) : Z :=
  if (posicao_atual <? List.length pontos_f1_tabela)%nat
  then nth posicao_atual pontos_f1_tabela 0
  else 0.

(** The ranking walk without its writes: for every iteration that reaches the
    write, [(participante_id, posicao_atual, pontos_f1)]. *)
Fixpoint classificacao (i posicao_atual : nat) (ultima_pontuacao_raw : Z)
    (linhas : list Linha) : list (Z * nat * Z) :=
  match linhas with
  | [] => []
  | (participante_id, _, total_pontos_raw) :: resto =>
      if total_pontos_raw =? 0 then []
      else
        let posicao_atual :=
          if total_pontos_raw <? ultima_pontuacao_raw then i
          else posicao_atual in
        let pontos_f1 := pontos_da_posicao posicao_atual in
        (participante_id, posicao_atual, pontos_f1)
          :: classificacao (S i) posicao_atual total_pontos_raw resto
  end.

Definition classificacao_da_rodada (semana : Z) (db : DB)
    : list (Z * nat * Z) :=
  classificacao 0 0 (-1) (pontuacoes_raw_por_participante semana db).

Definition da_semana (semana : Z) (r : PontuacaoRodada.t) : bool :=
  PontuacaoRodada.semana r =? semana.

Definition do_participante_na_semana (participante_id semana : Z)
    (r : PontuacaoRodada.t) : bool :=
  (PontuacaoRodada.participante_id r =? participante_id)
  && (PontuacaoRodada.semana r =? semana).

(** [app copy 8.py] *)
Module AppCopy8.

Definition calcular_e_atualizar_pontuacoes_jogo (jogo : Jogo.t) (db : DB)
  : bool * DB :=
  match Jogo.resultado jogo, Jogo.placar_time1_final jogo,
        Jogo.placar_time2_final jogo with
  | Some resultado, Some placar1, Some placar2 =>
      (true, pontuar_palpites jogo resultado placar1 placar2 db)
  | _, _, _ =>
      (false,
       com_palpites db
         (para_palpites_do_jogo jogo
            (fun palpite =>
               if negb (Palpite.pontuacao_recebida palpite =? 0)
               then Palpite.set_pontuacao_recebida palpite 0
               else palpite)
            (palpites db)))
  end.

(** The [for] loop: every iteration that passes the [break] adds a new
    row to the session. *)
Fixpoint percorrer (semana : Z) (i posicao_atual : nat)
    (ultima_pontuacao_raw : Z) (linhas : list Linha)
    (rs : list PontuacaoRodada.t) : list PontuacaoRodada.t :=
  match linhas with
  | [] => rs
  | (participante_id, _, total_pontos_raw) :: resto =>
      if total_pontos_raw =? 0 then rs
      else
        let posicao_atual :=
          if total_pontos_raw <? ultima_pontuacao_raw then i
          else posicao_atual in
        let pontos_f1 := pontos_da_posicao posicao_atual in
        let nova_pontuacao_rodada :=
          PontuacaoRodada.mk participante_id semana pontos_f1 in
        percorrer semana (S i) posicao_atual total_pontos_raw resto
          (rs ++ [nova_pontuacao_rodada])
  end.

Definition calcular_pontos_f1_por_rodada (semana : Z) (db : DB) : DB :=
  let pontuacoes_raw_por_participante :=
    pontuacoes_raw_por_participante semana db in
  (* PontuacaoRodada.query.filter_by(semana=semana).delete() *)
  let rs := filter (fun r => negb (da_semana semana r))
                   (pontuacoes_rodada db) in
  com_pontuacoes_rodada db
    (percorrer semana 0 0 (-1) pontuacoes_raw_por_participante rs).

End AppCopy8.

(** [app.py] *)
Module App.

Definition calcular_e_atualizar_pontuacoes_jogo (jogo : Jogo.t) (db : DB)
  : bool * DB :=
  match Jogo.resultado jogo, Jogo.placar_time1_final jogo,
        Jogo.placar_time2_final jogo with
  | Some resultado, Some placar1, Some placar2 =>
      (true, pontuar_palpites jogo resultado placar1 placar2 db)
  | _, _, _ => (false, db)
  end.

(** The row found by [.first()] is mutated in place. *)
Fixpoint substituir_primeiro (participante_id semana : Z)
    (novo : PontuacaoRodada.t) (rs : list PontuacaoRodada.t)
    : list PontuacaoRodada.t :=
  match rs with
  | [] => []
  | r :: rs' =>
      if do_participante_na_semana participante_id semana r
      then novo :: rs'
      else r :: substituir_primeiro participante_id semana novo rs'
  end.

(** The write of one iteration: update the existing row when its points
    differ, add a new row when there is none. *)
Definition registrar (participante_id semana pontos_f1 : Z)
    (rs : list PontuacaoRodada.t) : list PontuacaoRodada.t :=
  let pontuacao_rodada_existente :=
    find (do_participante_na_semana participante_id semana) rs in
  match pontuacao_rodada_existente with
  | Some existente =>
      if negb (PontuacaoRodada.pontos_f1 existente =? pontos_f1)
      then substituir_primeiro participante_id semana
             (PontuacaoRodada.set_pontos_f1 existente pontos_f1) rs
      else rs
  | None =>
      rs ++ [PontuacaoRodada.mk participante_id semana pontos_f1]
  end.

Fixpoint percorrer (semana : Z) (i posicao_atual : nat)
    (ultima_pontuacao_raw : Z) (linhas : list Linha)
    (rs : list PontuacaoRodada.t) : list PontuacaoRodada.t :=
  match linhas with
  | [] => rs
  | (participante_id, _, total_pontos_raw) :: resto =>
      if total_pontos_raw =? 0 then rs
      else
        let posicao_atual :=
          if total_pontos_raw <? ultima_pontuacao_raw then i
          else posicao_atual in
        let pontos_f1 := pontos_da_posicao posicao_atual in
        percorrer semana (S i) posicao_atual total_pontos_raw resto
          (registrar participante_id semana pontos_f1 rs)
  end.

Definition calcular_pontos_f1_por_rodada (semana : Z) (db : DB) : DB :=
  let pontuacoes_raw_por_participante :=
    pontuacoes_raw_por_participante semana db in
  com_pontuacoes_rodada db
    (percorrer semana 0 0 (-1) pontuacoes_raw_por_participante
       (pontuacoes_rodada db)).

End App.

(** * Vocabulary of the properties *)

Definition jogo_em (id semana : Z) (data_hora : DateTime.t) : Jogo.t :=
  Jogo.mk id None semana data_hora "Chiefs" "Ravens" None None None.

(** Friday 2024-09-06 02:00 UTC and Saturday 2024-09-07 18:00 UTC. *)
Definition sexta_02h : DateTime.t := DateTime.mk 2024 9 6 2 0 0.
Definition sabado_18h : DateTime.t := DateTime.mk 2024 9 7 18 0 0.

(** What the scoring rule tests on the scores of a prediction. *)
Definition placar_exato (palpite : Palpite.t) (placar1 placar2 : Z) : Prop :=
  Palpite.placar_time1 palpite = placar1 /\
  Palpite.placar_time2 palpite = placar2.

Definition diferenca_igual (palpite : Palpite.t) (placar1 placar2 : Z) : Prop :=
  Z.abs (Palpite.placar_time1 palpite - Palpite.placar_time2 palpite)
  = Z.abs (placar1 - placar2).

(** The reset of [app copy 8.py] on one row. *)
Definition zerar (jogo : Jogo.t) (palpite : Palpite.t) : Palpite.t :=
  if Palpite.jogo_id palpite =? Jogo.id jogo
  then Palpite.set_pontuacao_recebida palpite 0
  else palpite.

Definition com_resultado (jogo : Jogo.t) : Prop :=
  exists resultado placar1 placar2,
    Jogo.resultado jogo = Some resultado /\
    Jogo.placar_time1_final jogo = Some placar1 /\
    Jogo.placar_time2_final jogo = Some placar2.

(** The row of [PontuacaoRodada] written for one entry of the walk. *)
Definition linha_rodada (semana : Z) (c : Z * nat * Z) : PontuacaoRodada.t :=
  PontuacaoRodada.mk (fst (fst c)) semana (snd c).

Definition cl_id (c : Z * nat * Z) : Z := fst (fst c).
Definition cl_posicao (c : Z * nat * Z) : nat := snd (fst c).
Definition cl_pontos (c : Z * nat * Z) : Z := snd c.

(** The rows of the aggregate before the first total 0, and the rows from
    the first total 0 on. *)
Fixpoint ate_zero (linhas : list Linha) : list Linha :=
  match linhas with
  | [] => []
  | l :: resto =>
      if linha_total l =? 0 then [] else l :: ate_zero resto
  end.

Fixpoint depois_do_zero (linhas : list Linha) : list Linha :=
  match linhas with
  | [] => []
  | l :: resto =>
      if linha_total l =? 0 then l :: resto else depois_do_zero resto
  end.

(** The columns of the unique constraint [_participante_semana_uc]. *)
Definition chave (r : PontuacaoRodada.t) : Z * Z :=
  (PontuacaoRodada.participante_id r, PontuacaoRodada.semana r).

(** The table has no row of this participant for this round. *)
Definition sem_linha (participante_id semana : Z)
    (rs : list PontuacaoRodada.t) : Prop :=
  forall r, In r rs ->
    ~ (PontuacaoRodada.participante_id r = participante_id /\
       PontuacaoRodada.semana r = semana).

(** The two tables hold the same set of rows. *)
Definition mesmas_linhas (rs1 rs2 : list PontuacaoRodada.t) : Prop :=
  forall r, In r rs1 <-> In r rs2.

(** A list of aggregate rows in descending order of total. *)
Fixpoint descendente (linhas : list Linha) : Prop :=
  match linhas with
  | [] => True
  | l :: resto =>
      (forall l', In l' resto -> linha_total l' <= linha_total l) /\
      descendente resto
  end.

(** What the store guarantees: the primary key of [Participante], the unique
    constraint of [PontuacaoRodada], and raw points that are never
    negative. *)
Definition chave_primaria (db : DB) : Prop :=
  NoDup (map Participante.id (participantes db)).

Definition chave_unica (rs : list PontuacaoRodada.t) : Prop :=
  NoDup (map chave rs).

Definition pontos_nao_negativos (db : DB) : Prop :=
  forall palpite, In palpite (palpites db) ->
    0 <= Palpite.pontuacao_recebida palpite.

(** The number of aggregate rows with a total above [total]. *)
Definition acima (total : Z) (linhas : list Linha) : nat :=
  List.length (filter (fun l => total <? linha_total l) linhas).

(** The writes of the walk of [app.py], one entry after the other. *)
Definition registrar_todos (semana : Z) (cs : list (Z * nat * Z))
    (rs : list PontuacaoRodada.t) : list PontuacaoRodada.t :=
  fold_left (fun rs c => App.registrar (cl_id c) semana (cl_pontos c) rs)
            cs rs.

(** ** Example stores *)

Definition domingo_17h : DateTime.t := DateTime.mk 2024 9 8 17 0 0.
Definition segunda_00h : DateTime.t := DateTime.mk 2024 9 9 0 20 0.

Definition jogo_final (id semana : Z) (data_hora : DateTime.t)
    (resultado : string) (placar1 placar2 : Z) : Jogo.t :=
  Jogo.mk id None semana data_hora "Chiefs" "Ravens"
    (Some resultado) (Some placar1) (Some placar2).

Definition tres_participantes : list Participante.t :=
  [Participante.mk 1 "Ana"; Participante.mk 2 "Bruno";
   Participante.mk 3 "Carla"].

(** Round 1: a prime game and a plain game with results, a third game
    without; one prediction of the third game still carries 2 points. *)
Definition jogo1 : Jogo.t := jogo_final 1 1 sexta_02h "time1_vence" 27 20.
Definition jogo2 : Jogo.t := jogo_final 2 1 sabado_18h "time2_vence" 17 24.
Definition jogo3 : Jogo.t := jogo_em 3 1 domingo_17h.

Definition db_rodada1 : DB :=
  mkDB tres_participantes
    [jogo1; jogo2; jogo3]
    [Palpite.mk 1 1 "time1_vence" 27 20 0;
     Palpite.mk 2 1 "time1_vence" 30 23 0;
     Palpite.mk 3 1 "empate" 20 20 0;
     Palpite.mk 1 2 "time2_vence" 10 20 0;
     Palpite.mk 2 3 "time1_vence" 21 14 2]
    [].

(** Round 2: raw totals 10, 10 and 7, and rows of an earlier run. *)
Definition db_rodada2 : DB :=
  mkDB tres_participantes
    [jogo_final 4 2 sexta_02h "time1_vence" 27 20;
     jogo_final 5 2 segunda_00h "time2_vence" 17 24;
     jogo_final 6 2 domingo_17h "time1_vence" 31 10]
    [Palpite.mk 1 4 "time1_vence" 27 20 5;
     Palpite.mk 1 5 "time2_vence" 17 24 5;
     Palpite.mk 2 4 "time1_vence" 30 23 5;
     Palpite.mk 2 5 "time2_vence" 20 27 5;
     Palpite.mk 3 4 "time1_vence" 27 20 5;
     Palpite.mk 3 5 "time1_vence" 24 17 0;
     Palpite.mk 3 6 "time1_vence" 31 10 2]
    [PontuacaoRodada.mk 1 1 25; PontuacaoRodada.mk 1 2 18;
     PontuacaoRodada.mk 3 2 25].

(** Round 3: one plain game; ten participants with 2 raw points and an
    eleventh with 1. *)
Definition onze : list Z := [1; 2; 3; 4; 5; 6; 7; 8; 9; 10; 11].

Definition db_rodada3 : DB :=
  mkDB (map (fun n => Participante.mk n "P") onze)
    [jogo_final 7 3 domingo_17h "time1_vence" 24 17]
    (map (fun n =>
            if n <=? 10 then Palpite.mk n 7 "time1_vence" 24 17 2
            else Palpite.mk n 7 "time1_vence" 20 10 1)
         onze)
    [].

(** Round 4: Ana scored 5, Bruno 0; both have a row of an earlier run, from
    before the result of the game was corrected. *)
Definition db_rodada4 : DB :=
  mkDB tres_participantes
    [jogo_final 8 4 sexta_02h "time1_vence" 27 20]
    [Palpite.mk 1 8 "time1_vence" 27 20 5;
     Palpite.mk 2 8 "time2_vence" 20 27 0]
    [PontuacaoRodada.mk 1 4 18; PontuacaoRodada.mk 2 4 25].


(** * Vocabulary of the further properties *)

(** The only column a scorer may change, and only on the game's rows. *)
Definition so_pontuacao (jogo : Jogo.t) (p p' : Palpite.t) : Prop :=
  p' = Palpite.set_pontuacao_recebida p (Palpite.pontuacao_recebida p') /\
  (Palpite.jogo_id p <> Jogo.id jogo -> p' = p).

(** The raw points the scoring rule can produce. *)
Definition pontuacao_valida (v : Z) : Prop :=
  v = 0 \/ v = 1 \/ v = 2 \/ v = 4 \/ v = 5.

(** * The routes around the scoring pipeline

    The route functions read their arguments from an HTML form or a JSON
    file and then work on the store.  A form field is [None] when the form
    does not send it; the identifier of a game arrives as the integer the
    form offers; Python's [int()] and the clock are parameters.  The store
    is the SQLite file of the application: a write that SQLite refuses
    raises inside the route's [try], and [except Exception] rolls the
    session back. *)

Definition com_jogos (db : DB) (js : list Jogo.t) : DB :=
  mkDB (participantes db) js (palpites db) (pontuacoes_rodada db).

(** The assignments [jogo.resultado = ...], [jogo.placar_time1_final = ...]
    and [jogo.placar_time2_final = ...]. *)
Definition jogo_com_resultado (jogo : Jogo.t) (resultado : option string)
    (placar_time1_final placar_time2_final : option Z) : Jogo.t :=
  Jogo.mk (Jogo.id jogo) (Jogo.id_externo jogo) (Jogo.semana jogo)
    (Jogo.data_hora jogo) (Jogo.time1 jogo) (Jogo.time2 jogo)
    resultado placar_time1_final placar_time2_final.

(** The row a query returned is mutated in place: the first row that passes
    the filter of the query is replaced. *)
Fixpoint substituir_primeira {A : Type} (f : A -> bool) (novo : A)
    (l : list A) : list A :=
  match l with
  | [] => []
  | x :: l' =>
      if f x then novo :: l' else x :: substituir_primeira f novo l'
  end.

(** [db.session.delete(jogo)] on the row a query returned. *)
Fixpoint remover_primeiro_jogo (f : Jogo.t -> bool) (js : list Jogo.t)
    : list Jogo.t :=
  match js with
  | [] => []
  | j :: js' => if f j then js' else j :: remover_primeiro_jogo f js'
  end.

Definition tem_id (jogo_id : Z) (j : Jogo.t) : bool := Jogo.id j =? jogo_id.

Definition tem_id_externo (external_id : string) (j : Jogo.t) : bool :=
  match Jogo.id_externo j with
  | Some e => String.eqb e external_id
  | None => false
  end.

(** [Jogo.query.get(jogo_id)] *)
Definition buscar_jogo (jogo_id : Z) (db : DB) : option Jogo.t :=
  find (tem_id jogo_id) (jogos db).

(** [not campo] on a form field. *)
Definition vazio (campo : option string) : bool :=
  match campo with
  | None => true
  | Some s => String.eqb s ""
  end.

(** One record of [results_to_import.json], as the importer reads it with
    [.get]: a missing key is [None]. *)
Record ResultadoJson := mkResultadoJson {
  rj_id_externo : option string;
  rj_resultado : option string;
  rj_placar_time1_final : option Z;
  rj_placar_time2_final : option Z
}.

(** Python's [int] has no bound, a SQLite INTEGER has 64 bits: when the
    session is flushed, binding an integer outside of them raises
    [OverflowError]. *)
Definition inteiro_sqlite (n : Z) : bool :=
  (- 2 ^ 63 <=? n) && (n <? 2 ^ 63).

(** A column that may be NULL: [None] is bound as NULL. *)
Definition coluna_sqlite (v : option Z) : bool :=
  match v with
  | Some n => inteiro_sqlite n
  | None => true
  end.

(** [semanas_afetadas.add(semana)] on the set, kept as a list without
    repetition. *)
Definition adicionar_semana (semana : Z) (semanas : list Z) : list Z :=
  if existsb (Z.eqb semana) semanas then semanas else semanas ++ [semana].

Section Rotas.

(** Python's [int()] on a form field, [None] for [ValueError]. *)
Variable int_ : string -> option Z.

(** [jogo.data_hora.replace(tzinfo=timezone.utc) < datetime.now(timezone.utc)] *)
Variable ja_comecou : Jogo.t -> bool.

(** The Game Scorer and the Round Ranker of the file. *)
Variable calcular_e_atualizar_pontuacoes_jogo : Jogo.t -> DB -> bool * DB.
Variable calcular_pontos_f1_por_rodada : Z -> DB -> DB.

(** [if todos_jogos_semana_finalizados(semana):
       calcular_pontos_f1_por_rodada(semana)] *)
Definition recalcular_se_finalizada (semana : Z) (db : DB) : DB :=
  if todos_jogos_semana_finalizados semana db
  then calcular_pontos_f1_por_rodada semana db
  else db.

(** The POST branch of [definir_resultado]. *)
Definition definir_resultado (jogo_id : option Z)
    (resultado placar_time1_final_str placar_time2_final_str : option string)
    (db : DB) : DB :=
  match jogo_id, resultado, placar_time1_final_str,
        placar_time2_final_str with
  | Some jogo_id, Some resultado, Some placar1_str, Some placar2_str =>
      if String.eqb resultado "" || String.eqb placar1_str ""
         || String.eqb placar2_str ""
      then db
      else
        match buscar_jogo jogo_id db with
        | None => db
        | Some jogo =>
            match int_ placar1_str, int_ placar2_str with
            | Some placar_time1_final, Some placar_time2_final =>
                let jogo :=
                  jogo_com_resultado jogo (Some resultado)
                    (Some placar_time1_final) (Some placar_time2_final) in
                (* the game has a result now: the first query of the scorer
                   flushes it *)
                if inteiro_sqlite placar_time1_final
                   && inteiro_sqlite placar_time2_final
                then
                  let db :=
                    com_jogos db
                      (substituir_primeira (tem_id jogo_id) jogo
                         (jogos db)) in
                  let db :=
                    snd (calcular_e_atualizar_pontuacoes_jogo jogo db) in
                  recalcular_se_finalizada (Jogo.semana jogo) db
                else db   (* OverflowError: rollback, nothing was committed *)
            | _, _ => db   (* ValueError: nothing was staged yet *)
            end
        end
  | _, _, _, _ => db
  end.

(** One iteration of the first loop of [importar_resultados_json_route];
    [None] is an exception that leaves the loop.  The scores of the record
    are bound when the game is flushed, by the query of the scorer, by the
    query of a later iteration or by the commit after the loop: in each case
    inside the [try] and before anything is committed. *)
Definition importar_resultado (game_result : ResultadoJson)
    (estado : DB * list Z) : option (DB * list Z) :=
  let (db, semanas_afetadas) := estado in
  match rj_id_externo game_result with
  | None => Some estado
  | Some external_id =>
      if String.eqb external_id "" then Some estado
      else
        match find (tem_id_externo external_id) (jogos db) with
        | None => Some estado
        | Some jogo =>
            let jogo :=
              jogo_com_resultado jogo (rj_resultado game_result)
                (rj_placar_time1_final game_result)
                (rj_placar_time2_final game_result) in
            if coluna_sqlite (rj_placar_time1_final game_result)
               && coluna_sqlite (rj_placar_time2_final game_result)
            then
              let db :=
                com_jogos db
                  (substituir_primeira (tem_id_externo external_id) jogo
                     (jogos db)) in
              let db :=
                snd (calcular_e_atualizar_pontuacoes_jogo jogo db) in
              Some (db, adicionar_semana (Jogo.semana jogo) semanas_afetadas)
            else None   (* OverflowError *)
        end
  end.

(** The first loop: [for game_result in results_data]. *)
Fixpoint importar_resultados (results_data : list ResultadoJson)
    (estado : DB * list Z) : option (DB * list Z) :=
  match results_data with
  | [] => Some estado
  | game_result :: resto =>
      match importar_resultado game_result estado with
      | Some estado => importar_resultados resto estado
      | None => None
      end
  end.

(** The second loop: [for semana in semanas_afetadas]. *)
Definition recalcular_rodadas (semanas : list Z) (db : DB) : DB :=
  fold_left (fun db semana => recalcular_se_finalizada semana db) semanas db.

Definition importar_resultados_json_route (results_data : list ResultadoJson)
    (db : DB) : DB :=
  match importar_resultados results_data (db, []) with
  | Some (db, semanas_afetadas) => recalcular_rodadas semanas_afetadas db
  | None => db   (* except Exception: db.session.rollback() *)
  end.

(** The delete branch of [gerenciar_jogos]: the relationship [Jogo.palpites]
    cascades the delete to the predictions of the game. *)
Definition gerenciar_jogos_excluir (jogo_id : Z) (db : DB) : DB :=
  match buscar_jogo jogo_id db with
  | None => db
  | Some jogo =>
      let semana_do_jogo_excluido := Jogo.semana jogo in
      let db :=
        mkDB (participantes db)
          (remover_primeiro_jogo (tem_id jogo_id) (jogos db))
          (filter (fun p => negb (Palpite.jogo_id p =? Jogo.id jogo))
                  (palpites db))
          (pontuacoes_rodada db) in
      recalcular_se_finalizada semana_do_jogo_excluido db
  end.

Definition do_participante_no_jogo (participante_id jogo_id : Z)
    (p : Palpite.t) : bool :=
  (Palpite.participante_id p =? participante_id)
  && (Palpite.jogo_id p =? jogo_id).

(** The POST branch of [palpitar], for the logged-in participant. *)
Definition palpitar (participante_id : Z) (jogo_id : option Z)
    (escolha placar_time1_str placar_time2_str : option string)
    (db : DB) : DB :=
  match jogo_id, escolha, placar_time1_str, placar_time2_str with
  | Some jogo_id, Some escolha, Some placar1_str, Some placar2_str =>
      if String.eqb escolha "" || String.eqb placar1_str ""
         || String.eqb placar2_str ""
      then db
      else
        match buscar_jogo jogo_id db with
        | None => db
        | Some jogo =>
            if ja_comecou jogo then db
            else
              match int_ placar1_str, int_ placar2_str with
              | Some palpite_placar_time1, Some palpite_placar_time2 =>
                  let palpite_existente :=
                    find (do_participante_no_jogo participante_id
                            (Jogo.id jogo))
                         (palpites db) in
                  let com_palpite :=
                    match palpite_existente with
                    | Some existente =>
                        com_palpites db
                          (substituir_primeira
                             (do_participante_no_jogo participante_id
                                (Jogo.id jogo))
                             (Palpite.mk (Palpite.participante_id existente)
                                (Palpite.jogo_id existente) escolha
                                palpite_placar_time1 palpite_placar_time2
                                (Palpite.pontuacao_recebida existente))
                             (palpites db))
                    | None =>
                        com_palpites db
                          (palpites db
                           ++ [Palpite.mk participante_id (Jogo.id jogo)
                                 escolha palpite_placar_time1
                                 palpite_placar_time2 0])
                    end in
                  (* db.session.commit() *)
                  if inteiro_sqlite palpite_placar_time1
                     && inteiro_sqlite palpite_placar_time2
                  then com_palpite
                  else db   (* OverflowError: rollback *)
              | _, _ => db   (* ValueError: rollback *)
              end
        end
  | _, _, _, _ => db
  end.

End Rotas.

(** The routes of [app copy 8.py]. *)
Module RotasCopy8.

Definition definir_resultado (int_ : string -> option Z) :=
  definir_resultado int_ AppCopy8.calcular_e_atualizar_pontuacoes_jogo
    AppCopy8.calcular_pontos_f1_por_rodada.

Definition recalcular_rodadas :=
  recalcular_rodadas AppCopy8.calcular_pontos_f1_por_rodada.

Definition importar_resultados_json_route :=
  importar_resultados_json_route
    AppCopy8.calcular_e_atualizar_pontuacoes_jogo
    AppCopy8.calcular_pontos_f1_por_rodada.

Definition gerenciar_jogos_excluir :=
  gerenciar_jogos_excluir AppCopy8.calcular_pontos_f1_por_rodada.

End RotasCopy8.

(** The routes of [app.py]. *)
Module RotasApp.

Definition definir_resultado (int_ : string -> option Z) :=
  definir_resultado int_ App.calcular_e_atualizar_pontuacoes_jogo
    App.calcular_pontos_f1_por_rodada.

Definition importar_resultados_json_route :=
  importar_resultados_json_route
    App.calcular_e_atualizar_pontuacoes_jogo
    App.calcular_pontos_f1_por_rodada.

End RotasApp.

(** Two stores with the same participants, games and predictions, and the
    same round scores up to the order of the rows. *)
Definition mesma_base (db1 db2 : DB) : Prop :=
  participantes db1 = participantes db2 /\
  jogos db1 = jogos db2 /\
  palpites db1 = palpites db2 /\
  Permutation (pontuacoes_rodada db1) (pontuacoes_rodada db2).

(** A record the importer skips: no [id_externo], an empty one, or one that
    no game of the store carries. *)
Definition ignorado (db : DB) (game_result : ResultadoJson) : Prop :=
  match rj_id_externo game_result with
  | None => True
  | Some external_id =>
      external_id = "" \/ find (tem_id_externo external_id) (jogos db) = None
  end.

(** ** The configuration table and the round on display *)

Module Configuracao.
Record t := mk {
  chave : string;
  valor : string
}.
End Configuracao.

Definition tem_chave (key : string) (c : Configuracao.t) : bool :=
  String.eqb (Configuracao.chave c) key.

(** [get_config]: [None] is Python's [None]. *)
Definition get_config (key : string) (default_value : option string)
    (config : list Configuracao.t) : option string :=
  match find (tem_chave key) config with
  | Some c => Some (Configuracao.valor c)
  | None => default_value
  end.

(** [set_config], with its commit. *)
Definition set_config (key value : string) (config : list Configuracao.t)
    : list Configuracao.t :=
  match find (tem_chave key) config with
  | Some c =>
      substituir_primeira (tem_chave key)
        (Configuracao.mk (Configuracao.chave c) value) config
  | None => config ++ [Configuracao.mk key value]
  end.

(** [str.isdigit()] and [int()] on a string of ASCII characters, and
    [str()] on an integer: decimal notation. *)
Definition isdigit (s : string) : bool :=
  match NilZero.uint_of_string s with
  | Some _ => true
  | None => false
  end.

Definition int_de_digitos (s : string) : Z :=
  match NilZero.uint_of_string s with
  | Some d => Z.of_uint d
  | None => 0
  end.


(** [order_by(Jogo.semana.asc()).first()] and
    [order_by(Jogo.semana.desc()).first()]. *)
Fixpoint primeiro_semana_asc (js : list Jogo.t) : option Jogo.t :=
  match js with
  | [] => None
  | j :: resto =>
      match primeiro_semana_asc resto with
      | None => Some j
      | Some m => if Jogo.semana j <=? Jogo.semana m then Some j else Some m
      end
  end.

Fixpoint primeiro_semana_desc (js : list Jogo.t) : option Jogo.t :=
  match js with
  | [] => None
  | j :: resto =>
      match primeiro_semana_desc resto with
      | None => Some j
      | Some m => if Jogo.semana m <=? Jogo.semana j then Some j else Some m
      end
  end.

Definition chave_da_semana : string := "current_week_display_override".

(** The automatic choice of [home]: the first round with a game without
    result, else the last round, else round 1. *)
Definition semana_automatica (db : DB) : Z :=
  let semana_a_exibir := 1 in
  let earliest_unfinished_game :=
    primeiro_semana_asc (filter sem_resultado (jogos db)) in
  match earliest_unfinished_game with
  | Some earliest => Jogo.semana earliest
  | None =>
      let latest_game := primeiro_semana_desc (jogos db) in
      match latest_game with
      | Some latest => Jogo.semana latest
      | None => semana_a_exibir
      end
  end.

(** [semana_a_exibir] of [home] in [app copy 8.py]. *)
Definition semana_a_exibir (config : list Configuracao.t) (db : DB) : Z :=
  let semana_override_str := get_config chave_da_semana None config in
  match semana_override_str with
  | Some s =>
      if negb (String.eqb s "") && isdigit s
      then int_de_digitos s
      else semana_automatica db
  | None => semana_automatica db
  end.


(** The columns of the unique constraint [_participante_jogo_uc]. *)
Definition chave_palpite (p : Palpite.t) : Z * Z :=
  (Palpite.participante_id p, Palpite.jogo_id p).

(** ** Example inputs of the routes *)

(** [int()] on the fields of the example forms: decimal digits only. *)
Definition int_exemplo (s : string) : option Z :=
  if isdigit s then Some (int_de_digitos s) else None.

(** Round 5: one imported game with a result and two scored predictions,
    and the round scores of an earlier run. *)
Definition jogo9 : Jogo.t :=
  Jogo.mk 9 (Some "2024_05_KC_BAL") 5 sexta_02h "Chiefs" "Ravens"
    (Some "time1_vence") (Some 27) (Some 20).

Definition db_rodada5 : DB :=
  mkDB tres_participantes
    [jogo9]
    [Palpite.mk 1 9 "time1_vence" 27 20 5;
     Palpite.mk 2 9 "time2_vence" 20 27 0]
    [PontuacaoRodada.mk 1 5 25].

(** A record that clears the result of the game of round 5. *)
Definition resultado_apagado : ResultadoJson :=
  mkResultadoJson (Some "2024_05_KC_BAL") None None None.

(** A record for the same game with a score of 2^63. *)
Definition resultado_fora_do_limite : ResultadoJson :=
  mkResultadoJson (Some "2024_05_KC_BAL") None (Some 9223372036854775808)
    None.

(** A record that names no game. *)
Definition resultado_desconhecido : ResultadoJson :=
  mkResultadoJson (Some "2024_99_XX_YY") (Some "empate") (Some 10) (Some 10).

(** Closes [NoDup] goals on the example stores. *)
Ltac sem_repeticao :=
  repeat (constructor; [simpl; intuition (try discriminate; try lia)|]);
  constructor.

(** * Properties *)

(** ** The prime-game predicate *)

Lemma is_prime_game_true_iff jogo :
  is_prime_game jogo = true <->
  (0 <= DateTime.hour (Jogo.data_hora jogo) <= 4) /\
  (DateTime.weekday (Jogo.data_hora jogo) = DateTime.Friday \/
   DateTime.weekday (Jogo.data_hora jogo) = DateTime.Monday \/
   DateTime.weekday (Jogo.data_hora jogo) = DateTime.Tuesday).
Proof.
  unfold is_prime_game, DateTime.Friday, DateTime.Monday, DateTime.Tuesday.
  generalize (DateTime.hour (Jogo.data_hora jogo)) as h.
  generalize (DateTime.weekday (Jogo.data_hora jogo)) as w. intros w h.
  destruct (((h >=? 0) && (h <=? 4)) && ((w =? 4) || (w =? 0) || (w =? 1))) eqn:E.
  - apply andb_true_iff in E as [Hh Hw].
    apply andb_true_iff in Hh as [H0 H4].
    rewrite !orb_true_iff, !Z.eqb_eq in Hw.
    split; [intros _|reflexivity]. split; lia.
  - split; [discriminate|]. intros [Hh Hw].
    assert (Hb : (h >=? 0) && (h <=? 4) = true)
      by (apply andb_true_iff; split; lia).
    rewrite Hb in E. simpl in E.
    assert (Hw' : (w =? 4) || (w =? 0) || (w =? 1) = true)
      by (rewrite !orb_true_iff, !Z.eqb_eq; lia).
    congruence.
Qed.

(** C6. For every game, [is_prime_game] answers true exactly when the UTC
    start hour lies in [0,4] and the UTC weekday is Friday, Monday or Tuesday;
    every game that starts on a UTC Friday at 02:00 is prime and every game
    that starts on a UTC Saturday at 18:00 is not. *)
Theorem is_prime_game_spec :
  (forall jogo,
      is_prime_game jogo = true <->
      (0 <= DateTime.hour (Jogo.data_hora jogo) <= 4) /\
      (DateTime.weekday (Jogo.data_hora jogo) = DateTime.Friday \/
       DateTime.weekday (Jogo.data_hora jogo) = DateTime.Monday \/
       DateTime.weekday (Jogo.data_hora jogo) = DateTime.Tuesday)) /\
  (forall jogo,
      DateTime.weekday (Jogo.data_hora jogo) = DateTime.Friday ->
      DateTime.hour (Jogo.data_hora jogo) = 2 ->
      is_prime_game jogo = true) /\
  (forall jogo,
      DateTime.weekday (Jogo.data_hora jogo) = DateTime.Saturday ->
      DateTime.hour (Jogo.data_hora jogo) = 18 ->
      is_prime_game jogo = false).
Proof.
  split; [exact is_prime_game_true_iff|split].
  - intros jogo Hw Hh. apply is_prime_game_true_iff. split; [lia|now left].
  - intros jogo Hw Hh. apply not_true_is_false. intros Hp.
    apply is_prime_game_true_iff in Hp as [Hr _]. lia.
Qed.

Lemma is_prime_game_spec_witness :
  (DateTime.weekday sexta_02h = DateTime.Friday /\
   is_prime_game (jogo_em 1 1 sexta_02h) = true) /\
  (DateTime.weekday sabado_18h = DateTime.Saturday /\
   is_prime_game (jogo_em 2 1 sabado_18h) = false).
Proof.
  destruct is_prime_game_spec as [_ [Hsexta Hsabado]].
  split; (split; [reflexivity|]).
  - apply Hsexta; reflexivity.
  - apply Hsabado; reflexivity.
Defined.

(** ** The Game Scorer *)

Section GameScorer.

Variable jogo : Jogo.t.
Variable db : DB.

(** Assigning only when the stored value differs is the same as
    assigning. *)
Lemma atualizar_pontuacao_set palpite v :
  atualizar_pontuacao palpite v = Palpite.set_pontuacao_recebida palpite v.
Proof.
  unfold atualizar_pontuacao, Palpite.set_pontuacao_recebida.
  destruct palpite as [pid jid esc p1 p2 pr]; simpl.
  destruct (pr =? v) eqn:E; simpl; [|reflexivity].
  apply Z.eqb_eq in E. now subst.
Qed.

Lemma nth_error_para_palpites_do_jogo f ps k palpite :
  nth_error ps k = Some palpite ->
  nth_error (para_palpites_do_jogo jogo f ps) k =
  Some (if Palpite.jogo_id palpite =? Jogo.id jogo then f palpite
        else palpite).
Proof.
  intros H. unfold para_palpites_do_jogo.
  rewrite nth_error_map, H. reflexivity.
Qed.

(** On a finalized game the two files compute the same store. *)
Lemma finalizado_calcular resultado placar1 placar2 :
  Jogo.resultado jogo = Some resultado ->
  Jogo.placar_time1_final jogo = Some placar1 ->
  Jogo.placar_time2_final jogo = Some placar2 ->
  AppCopy8.calcular_e_atualizar_pontuacoes_jogo jogo db =
    (true, pontuar_palpites jogo resultado placar1 placar2 db) /\
  App.calcular_e_atualizar_pontuacoes_jogo jogo db =
    (true, pontuar_palpites jogo resultado placar1 placar2 db).
Proof.
  intros Hr H1 H2.
  unfold AppCopy8.calcular_e_atualizar_pontuacoes_jogo,
    App.calcular_e_atualizar_pontuacoes_jogo.
  rewrite Hr, H1, H2. split; reflexivity.
Qed.

Lemma nth_error_pontuar_palpites resultado placar1 placar2 k palpite :
  nth_error (palpites db) k = Some palpite ->
  Palpite.jogo_id palpite = Jogo.id jogo ->
  nth_error (palpites (pontuar_palpites jogo resultado placar1 placar2 db)) k
  = Some (Palpite.set_pontuacao_recebida palpite
            (pontuacao_atual (is_prime_game jogo) resultado
               placar1 placar2 palpite)).
Proof.
  intros Hk Hid. unfold pontuar_palpites. simpl.
  rewrite (nth_error_para_palpites_do_jogo _ _ _ _ Hk).
  rewrite Hid, Z.eqb_refl, atualizar_pontuacao_set. reflexivity.
Qed.

End GameScorer.

Lemma pontuacao_atual_acerto prime resultado placar1 placar2 palpite :
  Palpite.escolha palpite = resultado ->
  let pts := pontuacao_atual prime resultado placar1 placar2 palpite in
  (placar_exato palpite placar1 placar2 \/
   diferenca_igual palpite placar1 placar2 ->
   pts = if prime then 5 else 2) /\
  (~ (placar_exato palpite placar1 placar2 \/
      diferenca_igual palpite placar1 placar2) ->
   pts = if prime then 4 else 1).
Proof.
  intros He pts. subst pts. unfold pontuacao_atual, placar_exato, diferenca_igual.
  rewrite He, String.eqb_refl.
  destruct ((Palpite.placar_time1 palpite =? placar1)
            && (Palpite.placar_time2 palpite =? placar2)) eqn:Ex.
  - apply andb_true_iff in Ex as [E1 E2].
    apply Z.eqb_eq in E1, E2.
    split; [intros _; now destruct prime|].
    intros Hn. exfalso. apply Hn. left. now split.
  - destruct (Z.abs (Palpite.placar_time1 palpite - Palpite.placar_time2 palpite)
              =? Z.abs (placar1 - placar2)) eqn:Ed.
    + apply Z.eqb_eq in Ed.
      split; [intros _; now destruct prime|].
      intros Hn. exfalso. apply Hn. now right.
    + apply Z.eqb_neq in Ed.
      apply andb_false_iff in Ex.
      split; [|intros _; now destruct prime].
      intros [[E1 E2]|Hd]; [|contradiction].
      rewrite <- Z.eqb_eq in E1, E2.
      destruct Ex as [Ex|Ex]; congruence.
Qed.

Lemma pontuacao_atual_erro prime resultado placar1 placar2 palpite :
  Palpite.escolha palpite <> resultado ->
  pontuacao_atual prime resultado placar1 placar2 palpite = 0.
Proof.
  intros Hne. unfold pontuacao_atual.
  apply String.eqb_neq in Hne. now rewrite Hne.
Qed.

Lemma pontuacao_atual_valores prime resultado placar1 placar2 palpite :
  let pts := pontuacao_atual prime resultado placar1 placar2 palpite in
  pts = 0 \/ pts = 1 \/ pts = 2 \/ pts = 4 \/ pts = 5.
Proof.
  unfold pontuacao_atual.
  destruct (String.eqb _ _); [|now left].
  destruct prime, (_ && _); simpl; try (destruct (_ =? _); simpl); lia.
Qed.

(** C3. On a finalized game, a prediction whose outcome tag equals the game's
    is stored with 2 raw points (game not prime) or 5 (prime game) when its
    scores are the final scores or its absolute differential is the actual
    one, and with 1 (not prime) or 4 (prime) otherwise; the stored value is
    never 6.  Both files compute it. *)
Theorem pontuacao_quando_acerta_resultado :
  forall (jogo : Jogo.t) (db : DB) (resultado : string) (placar1 placar2 : Z)
         (k : nat) (palpite : Palpite.t),
    Jogo.resultado jogo = Some resultado ->
    Jogo.placar_time1_final jogo = Some placar1 ->
    Jogo.placar_time2_final jogo = Some placar2 ->
    nth_error (palpites db) k = Some palpite ->
    Palpite.jogo_id palpite = Jogo.id jogo ->
    Palpite.escolha palpite = resultado ->
    exists pts : Z,
      AppCopy8.calcular_e_atualizar_pontuacoes_jogo jogo db =
        (true, pontuar_palpites jogo resultado placar1 placar2 db) /\
      App.calcular_e_atualizar_pontuacoes_jogo jogo db =
        (true, pontuar_palpites jogo resultado placar1 placar2 db) /\
      nth_error
        (palpites (pontuar_palpites jogo resultado placar1 placar2 db)) k
      = Some (Palpite.set_pontuacao_recebida palpite pts) /\
      (is_prime_game jogo = false ->
       (placar_exato palpite placar1 placar2 \/
        diferenca_igual palpite placar1 placar2 -> pts = 2) /\
       (~ (placar_exato palpite placar1 placar2 \/
           diferenca_igual palpite placar1 placar2) -> pts = 1)) /\
      (is_prime_game jogo = true ->
       (placar_exato palpite placar1 placar2 \/
        diferenca_igual palpite placar1 placar2 -> pts = 5) /\
       (~ (placar_exato palpite placar1 placar2 \/
           diferenca_igual palpite placar1 placar2) -> pts = 4)) /\
      pts <> 6.
Proof.
  intros jogo db resultado placar1 placar2 k palpite Hr H1 H2 Hk Hid He.
  exists (pontuacao_atual (is_prime_game jogo) resultado placar1 placar2 palpite).
  destruct (finalizado_calcular jogo db _ _ _ Hr H1 H2) as [H8 HA].
  pose proof (pontuacao_atual_acerto (is_prime_game jogo) _ placar1 placar2
                _ He) as Hpts.
  cbv zeta in Hpts.
  split; [exact H8|]. split; [exact HA|].
  split; [now apply nth_error_pontuar_palpites|].
  split; [|split].
  - intros Hprime. rewrite Hprime in Hpts |- *. exact Hpts.
  - intros Hprime. rewrite Hprime in Hpts |- *. exact Hpts.
  - pose proof (pontuacao_atual_valores (is_prime_game jogo) resultado
                  placar1 placar2 palpite) as Hv.
    cbv zeta in Hv. lia.
Qed.

(** C4. On a finalized game, a prediction whose outcome tag differs from the
    game's is stored with 0 raw points, whatever its scores; a draw
    prediction on a game that did not end in a draw is one such case.  Both
    files compute it. *)
Theorem pontuacao_quando_erra_resultado :
  forall (jogo : Jogo.t) (db : DB) (resultado : string) (placar1 placar2 : Z)
         (k : nat) (palpite : Palpite.t),
    Jogo.resultado jogo = Some resultado ->
    Jogo.placar_time1_final jogo = Some placar1 ->
    Jogo.placar_time2_final jogo = Some placar2 ->
    nth_error (palpites db) k = Some palpite ->
    Palpite.jogo_id palpite = Jogo.id jogo ->
    Palpite.escolha palpite <> resultado ->
    AppCopy8.calcular_e_atualizar_pontuacoes_jogo jogo db =
      (true, pontuar_palpites jogo resultado placar1 placar2 db) /\
    App.calcular_e_atualizar_pontuacoes_jogo jogo db =
      (true, pontuar_palpites jogo resultado placar1 placar2 db) /\
    nth_error (palpites (pontuar_palpites jogo resultado placar1 placar2 db)) k
    = Some (Palpite.set_pontuacao_recebida palpite 0).
Proof.
  intros jogo db resultado placar1 placar2 k palpite Hr H1 H2 Hk Hid Hne.
  destruct (finalizado_calcular jogo db _ _ _ Hr H1 H2) as [H8 HA].
  split; [exact H8|]. split; [exact HA|].
  rewrite (nth_error_pontuar_palpites jogo db _ _ _ _ _ Hk Hid).
  now rewrite pontuacao_atual_erro.
Qed.

Lemma sem_resultado_calcular_copy8 jogo db :
  Jogo.resultado jogo = None \/
  Jogo.placar_time1_final jogo = None \/
  Jogo.placar_time2_final jogo = None ->
  AppCopy8.calcular_e_atualizar_pontuacoes_jogo jogo db =
  (false, com_palpites db (map (zerar jogo) (palpites db))).
Proof.
  intros H. unfold AppCopy8.calcular_e_atualizar_pontuacoes_jogo.
  assert (E : para_palpites_do_jogo jogo
                (fun palpite =>
                   if negb (Palpite.pontuacao_recebida palpite =? 0)
                   then Palpite.set_pontuacao_recebida palpite 0
                   else palpite) (palpites db)
              = map (zerar jogo) (palpites db)).
  { unfold para_palpites_do_jogo. apply map_ext. intros p. unfold zerar.
    destruct (Palpite.jogo_id p =? Jogo.id jogo); [|reflexivity].
    exact (atualizar_pontuacao_set p 0). }
  rewrite E.
  destruct (Jogo.resultado jogo), (Jogo.placar_time1_final jogo),
    (Jogo.placar_time2_final jogo); try reflexivity.
  destruct H as [H|[H|H]]; discriminate.
Qed.

(** [app.py] has no reset: on a game without a result it returns [False] and
    stages nothing. *)
Lemma sem_resultado_calcular_app jogo db :
  Jogo.resultado jogo = None \/
  Jogo.placar_time1_final jogo = None \/
  Jogo.placar_time2_final jogo = None ->
  App.calcular_e_atualizar_pontuacoes_jogo jogo db = (false, db).
Proof.
  intros H. unfold App.calcular_e_atualizar_pontuacoes_jogo.
  destruct (Jogo.resultado jogo), (Jogo.placar_time1_final jogo),
    (Jogo.placar_time2_final jogo); try reflexivity.
  destruct H as [H|[H|H]]; discriminate.
Qed.

(** C5. On a game whose outcome tag or either final score is unset, the Game
    Scorer of either file returns [False] and computes no score.  That of
    [app copy 8.py] resets first: every prediction of that game is left with
    raw points 0 and otherwise as it was, every other prediction and every
    other table is untouched, and the new values do not depend on any
    outcome or score.  That of [app.py] has no reset: it leaves the store as
    it is, a prediction with nonzero raw points included. *)
Theorem calcular_sem_resultado_zera :
  forall (jogo : Jogo.t) (db : DB),
    Jogo.resultado jogo = None \/
    Jogo.placar_time1_final jogo = None \/
    Jogo.placar_time2_final jogo = None ->
    let r := AppCopy8.calcular_e_atualizar_pontuacoes_jogo jogo db in
    App.calcular_e_atualizar_pontuacoes_jogo jogo db = (false, db) /\
    fst r = false /\
    participantes (snd r) = participantes db /\
    jogos (snd r) = jogos db /\
    pontuacoes_rodada (snd r) = pontuacoes_rodada db /\
    List.length (palpites (snd r)) = List.length (palpites db) /\
    (forall k palpite,
        nth_error (palpites db) k = Some palpite ->
        nth_error (palpites (snd r)) k =
        Some (if Palpite.jogo_id palpite =? Jogo.id jogo
              then Palpite.set_pontuacao_recebida palpite 0
              else palpite)) /\
    (forall palpite,
        In palpite (palpites (snd r)) ->
        Palpite.jogo_id palpite = Jogo.id jogo ->
        Palpite.pontuacao_recebida palpite = 0).
Proof.
  intros jogo db H r. subst r.
  split; [exact (sem_resultado_calcular_app jogo db H)|].
  rewrite (sem_resultado_calcular_copy8 jogo db H). simpl.
  repeat split.
  - apply length_map.
  - intros k palpite Hk. rewrite nth_error_map, Hk. reflexivity.
  - intros palpite Hin Hid.
    apply in_map_iff in Hin as [p [Hp _]]. subst palpite.
    unfold zerar in *.
    destruct (Palpite.jogo_id p =? Jogo.id jogo) eqn:E; [reflexivity|].
    apply Z.eqb_neq in E. contradiction.
Qed.

(** ** The round-completeness predicate *)

Lemma sem_resultado_false_iff jogo :
  sem_resultado jogo = false <-> com_resultado jogo.
Proof.
  unfold sem_resultado, com_resultado.
  destruct (Jogo.resultado jogo) as [r|], (Jogo.placar_time1_final jogo) as [a|],
    (Jogo.placar_time2_final jogo) as [b|];
    (split; [try discriminate; intros _; now exists r, a, b
            | intros (r' & a' & b' & Hr & Ha & Hb);
              try reflexivity; discriminate]).
Qed.

Lemma todos_com_resultado_iff js :
  todos_com_resultado js = true <-> forall j, In j js -> com_resultado j.
Proof.
  induction js as [|j js IH]; simpl.
  - split; [intros _ j []|reflexivity].
  - destruct (sem_resultado j) eqn:E.
    + split; [discriminate|]. intros H.
      assert (Hj : com_resultado j) by (apply H; now left).
      apply sem_resultado_false_iff in Hj. congruence.
    + rewrite IH. split.
      * intros H j' [<-|Hin]; [now apply sem_resultado_false_iff|now apply H].
      * intros H j' Hin. apply H. now right.
Qed.

Lemma In_jogos_da_semana semana db j :
  In j (jogos_da_semana semana db) <->
  In j (jogos db) /\ Jogo.semana j = semana.
Proof.
  unfold jogos_da_semana. rewrite filter_In, Z.eqb_eq. reflexivity.
Qed.

(** C9. For every round number, [todos_jogos_semana_finalizados] answers true
    exactly when the round has at least one game and every game of the round
    has its outcome tag and both final scores set; a round without games
    yields false. *)
Theorem todos_jogos_semana_finalizados_spec :
  forall (semana : Z) (db : DB),
    (todos_jogos_semana_finalizados semana db = true <->
     (exists j, In j (jogos db) /\ Jogo.semana j = semana) /\
     (forall j, In j (jogos db) -> Jogo.semana j = semana -> com_resultado j))
    /\
    ((forall j, In j (jogos db) -> Jogo.semana j <> semana) ->
     todos_jogos_semana_finalizados semana db = false).
Proof.
  intros semana db.
  assert (Hiff : todos_jogos_semana_finalizados semana db = true <->
     (exists j, In j (jogos db) /\ Jogo.semana j = semana) /\
     (forall j, In j (jogos db) -> Jogo.semana j = semana -> com_resultado j)).
  { unfold todos_jogos_semana_finalizados.
    destruct (jogos_da_semana semana db) as [|j0 js] eqn:E.
    - split; [discriminate|]. intros [[j Hj] _].
      apply In_jogos_da_semana in Hj. rewrite E in Hj. destruct Hj.
    - rewrite <- E, todos_com_resultado_iff. split.
      + intros H. split.
        * exists j0. apply In_jogos_da_semana. rewrite E. now left.
        * intros j Hin Hs. apply H. now apply In_jogos_da_semana.
      + intros [_ H] j Hin. apply In_jogos_da_semana in Hin as [Hin Hs].
        now apply H. }
  split; [exact Hiff|].
  intros Hnone. apply not_true_is_false. intros Ht.
  apply Hiff in Ht as [[j [Hin Hs]] _]. exact (Hnone j Hin Hs).
Qed.

(** ** The Round Ranker: the walk *)

Lemma pontos_da_posicao_fora (posicao : nat) :
  (10 <= posicao)%nat -> pontos_da_posicao posicao = 0.
Proof.
  intros H. unfold pontos_da_posicao.
  destruct (Nat.ltb_spec posicao (List.length pontos_f1_tabela)) as [Hlt|_];
    [|reflexivity].
  simpl in Hlt. lia.
Qed.

Lemma classificacao_pontos i posicao ultima linhas c :
  In c (classificacao i posicao ultima linhas) ->
  cl_pontos c = pontos_da_posicao (cl_posicao c).
Proof.
  revert i posicao ultima.
  induction linhas as [|[[pid nome] total] resto IH]; intros i posicao ultima;
    simpl; [tauto|].
  destruct (total =? 0); [intros []|].
  intros [<-|Hin]; [reflexivity|]. exact (IH _ _ _ Hin).
Qed.

(** The walk stops at the first total 0. *)
Lemma classificacao_ate_zero i posicao ultima linhas :
  classificacao i posicao ultima linhas =
  classificacao i posicao ultima (ate_zero linhas).
Proof.
  revert i posicao ultima.
  induction linhas as [|[[pid nome] total] resto IH]; intros i posicao ultima;
    simpl; [reflexivity|].
  unfold linha_total; simpl.
  destruct (total =? 0) eqn:E; [reflexivity|].
  simpl. rewrite E. f_equal. apply IH.
Qed.

Lemma classificacao_ids i posicao ultima linhas :
  map cl_id (classificacao i posicao ultima linhas) =
  map linha_id (ate_zero linhas).
Proof.
  revert i posicao ultima.
  induction linhas as [|[[pid nome] total] resto IH]; intros i posicao ultima;
    simpl; [reflexivity|].
  unfold linha_total; simpl.
  destruct (total =? 0); [reflexivity|].
  simpl. f_equal. apply IH.
Qed.

Lemma ate_zero_depois_do_zero linhas :
  linhas = ate_zero linhas ++ depois_do_zero linhas.
Proof.
  induction linhas as [|l resto IH]; simpl; [reflexivity|].
  destruct (linha_total l =? 0); [reflexivity|].
  simpl. now f_equal.
Qed.

Lemma ate_zero_total linhas l :
  In l (ate_zero linhas) -> linha_total l <> 0.
Proof.
  induction linhas as [|l' resto IH]; simpl; [tauto|].
  destruct (linha_total l' =? 0) eqn:E; [intros []|].
  intros [<-|Hin]; [now apply Z.eqb_neq|now apply IH].
Qed.

(** The loop of [app copy 8.py] appends one row per entry of the walk. *)
Lemma percorrer_copy8 semana i posicao ultima linhas rs :
  AppCopy8.percorrer semana i posicao ultima linhas rs =
  rs ++ map (linha_rodada semana) (classificacao i posicao ultima linhas).
Proof.
  revert i posicao ultima rs.
  induction linhas as [|[[pid nome] total] resto IH];
    intros i posicao ultima rs; simpl.
  - now rewrite app_nil_r.
  - destruct (total =? 0); [now rewrite app_nil_r|].
    rewrite IH, <- app_assoc. reflexivity.
Qed.

(** The loop of [app.py] registers one entry of the walk after the other. *)
Lemma percorrer_app semana i posicao ultima linhas rs :
  App.percorrer semana i posicao ultima linhas rs =
  registrar_todos semana (classificacao i posicao ultima linhas) rs.
Proof.
  unfold registrar_todos. revert i posicao ultima rs.
  induction linhas as [|[[pid nome] total] resto IH];
    intros i posicao ultima rs; simpl; [reflexivity|].
  destruct (total =? 0); [reflexivity|].
  simpl. apply IH.
Qed.

Lemma da_semana_linha_rodada semana c :
  da_semana semana (linha_rodada semana c) = true.
Proof. unfold da_semana, linha_rodada; simpl. apply Z.eqb_refl. Qed.

Lemma filter_da_semana_novas semana cs :
  filter (da_semana semana) (map (linha_rodada semana) cs) =
  map (linha_rodada semana) cs.
Proof.
  induction cs as [|c cs IH]; simpl; [reflexivity|].
  rewrite da_semana_linha_rodada. now f_equal.
Qed.

Lemma filter_filter_negb {A} (f : A -> bool) l :
  filter f (filter (fun x => negb (f x)) l) = [].
Proof.
  induction l as [|x l IH]; simpl; [reflexivity|].
  destruct (f x) eqn:E; simpl; [exact IH|]. now rewrite E.
Qed.

Lemma filter_idem {A} (f : A -> bool) l :
  filter f (filter f l) = filter f l.
Proof.
  induction l as [|x l IH]; simpl; [reflexivity|].
  destruct (f x) eqn:E; simpl; [rewrite E; now f_equal|exact IH].
Qed.

Lemma filter_nenhuma_da_semana semana cs :
  filter (fun r => negb (da_semana semana r)) (map (linha_rodada semana) cs)
  = [].
Proof.
  induction cs as [|c cs IH]; simpl; [reflexivity|].
  now rewrite da_semana_linha_rodada.
Qed.

Lemma copy8_pontuacoes_rodada semana db :
  pontuacoes_rodada (AppCopy8.calcular_pontos_f1_por_rodada semana db) =
  filter (fun r => negb (da_semana semana r)) (pontuacoes_rodada db)
  ++ map (linha_rodada semana) (classificacao_da_rodada semana db).
Proof.
  unfold AppCopy8.calcular_pontos_f1_por_rodada. simpl.
  apply percorrer_copy8.
Qed.

Lemma copy8_linhas_da_semana semana db :
  filter (da_semana semana)
    (pontuacoes_rodada (AppCopy8.calcular_pontos_f1_por_rodada semana db))
  = map (linha_rodada semana) (classificacao_da_rodada semana db).
Proof.
  rewrite copy8_pontuacoes_rodada, filter_app.
  now rewrite filter_filter_negb, filter_da_semana_novas.
Qed.


(** ** The aggregate query *)

Lemma inserir_desc_perm x l : Permutation (inserir_desc x l) (x :: l).
Proof.
  induction l as [|y l IH]; simpl; [reflexivity|].
  destruct (linha_total y <=? linha_total x); [reflexivity|].
  rewrite IH. apply perm_swap.
Qed.

Lemma ordenar_desc_perm l : Permutation (ordenar_desc l) l.
Proof.
  induction l as [|x l IH]; simpl; [reflexivity|].
  rewrite inserir_desc_perm. now constructor.
Qed.

Lemma inserir_desc_descendente x l :
  descendente l -> descendente (inserir_desc x l).
Proof.
  induction l as [|y l IH]; simpl.
  - intros _. split; [intros l' []|exact I].
  - intros [Hy Hl].
    destruct (Z.leb_spec (linha_total y) (linha_total x)) as [Hle|Hgt]; simpl.
    + split; [|now split].
      intros l' [<-|Hin]; [exact Hle|].
      specialize (Hy l' Hin). lia.
    + split; [|now apply IH].
      intros l' Hin.
      apply (Permutation_in _ (inserir_desc_perm x l)) in Hin.
      destruct Hin as [<-|Hin]; [lia|now apply Hy].
Qed.

Lemma ordenar_desc_descendente l : descendente (ordenar_desc l).
Proof.
  induction l as [|x l IH]; simpl; [exact I|].
  now apply inserir_desc_descendente.
Qed.

Lemma soma_nao_negativa l : (forall x, In x l -> 0 <= x) -> 0 <= soma l.
Proof.
  induction l as [|x l IH]; simpl; intros H; [lia|].
  assert (0 <= x) by (apply H; now left).
  assert (0 <= soma l) by (apply IH; intros y Hy; apply H; now right).
  lia.
Qed.

Lemma pontos_do_participante_nao_negativos semana db p x :
  pontos_nao_negativos db ->
  In x (pontos_do_participante semana db p) -> 0 <= x.
Proof.
  intros Hnn Hin. unfold pontos_do_participante in Hin.
  apply in_flat_map in Hin as [pl [Hpl Hx]].
  destruct (Palpite.participante_id pl =? Participante.id p); [|destruct Hx].
  apply in_map_iff in Hx as [_ [<- _]]. now apply Hnn.
Qed.

Lemma In_grupos semana db l :
  In l (grupos semana db) <->
  exists p, In p (participantes db) /\
            pontos_do_participante semana db p <> [] /\
            l = (Participante.id p, Participante.nome p,
                 soma (pontos_do_participante semana db p)).
Proof.
  unfold grupos. rewrite in_flat_map. split.
  - intros [p [Hp Hl]]. exists p. split; [exact Hp|].
    destruct (pontos_do_participante semana db p) eqn:E; [destruct Hl|].
    destruct Hl as [<-|[]]. split; [discriminate|reflexivity].
  - intros [p [Hp [Hne ->]]]. exists p. split; [exact Hp|].
    destruct (pontos_do_participante semana db p) eqn:E; [congruence|].
    now left.
Qed.

Lemma In_pontuacoes_raw semana db l :
  In l (pontuacoes_raw_por_participante semana db) <-> In l (grupos semana db).
Proof.
  unfold pontuacoes_raw_por_participante. split; intros H.
  - exact (Permutation_in _ (ordenar_desc_perm _) H).
  - exact (Permutation_in _ (Permutation_sym (ordenar_desc_perm _)) H).
Qed.

Lemma pontuacoes_raw_nao_negativas semana db l :
  pontos_nao_negativos db ->
  In l (pontuacoes_raw_por_participante semana db) -> 0 <= linha_total l.
Proof.
  intros Hnn Hin. apply In_pontuacoes_raw, In_grupos in Hin.
  destruct Hin as [p [_ [_ ->]]]. unfold linha_total; simpl.
  apply soma_nao_negativa. intros x.
  now apply pontos_do_participante_nao_negativos.
Qed.

Section UmGrupoPorParticipante.

Variable g : Participante.t -> list Linha.
Hypothesis g_id : forall p l, In l (g p) -> linha_id l = Participante.id p.
Hypothesis g_um : forall p, (List.length (g p) <= 1)%nat.

Lemma flat_map_ids_sub ps x :
  In x (map linha_id (flat_map g ps)) -> In x (map Participante.id ps).
Proof.
  intros Hx. apply in_map_iff in Hx as [l [<- Hl]].
  apply in_flat_map in Hl as [q [Hq Hl]].
  rewrite (g_id _ _ Hl). now apply in_map.
Qed.

Lemma flat_map_ids_NoDup ps :
  NoDup (map Participante.id ps) -> NoDup (map linha_id (flat_map g ps)).
Proof.
  induction ps as [|p ps IH]; simpl; intros Hnd; [constructor|].
  inversion Hnd as [|x xs Hnotin Hnd']; subst.
  rewrite map_app.
  pose proof (g_um p) as Hum. pose proof (g_id p) as Hid.
  destruct (g p) as [|l [|l' ls]]; simpl in *; [now apply IH| |lia].
  constructor; [|now apply IH].
  intros Hin. apply Hnotin. apply flat_map_ids_sub.
  rewrite <- (Hid l) by now left. exact Hin.
Qed.

End UmGrupoPorParticipante.

(** One group per participant: the identifiers of the aggregate do not
    repeat. *)
Lemma grupos_ids semana db :
  chave_primaria db -> NoDup (map linha_id (grupos semana db)).
Proof.
  unfold chave_primaria, grupos. apply flat_map_ids_NoDup.
  - intros p l Hl.
    destruct (pontos_do_participante semana db p); [destruct Hl|].
    now destruct Hl as [<-|[]].
  - intros p. destruct (pontos_do_participante semana db p); simpl; lia.
Qed.

Lemma pontuacoes_raw_ids semana db :
  chave_primaria db ->
  NoDup (map linha_id (pontuacoes_raw_por_participante semana db)).
Proof.
  intros H. unfold pontuacoes_raw_por_participante.
  apply (Permutation_NoDup
           (l := map linha_id (grupos semana db))).
  - apply Permutation_map, Permutation_sym, ordenar_desc_perm.
  - now apply grupos_ids.
Qed.

Lemma pontuacoes_raw_descendente semana db :
  descendente (pontuacoes_raw_por_participante semana db).
Proof. apply ordenar_desc_descendente. Qed.

Lemma depois_do_zero_nao_positivo linhas l :
  descendente linhas -> In l (depois_do_zero linhas) -> linha_total l <= 0.
Proof.
  induction linhas as [|l0 resto IH]; simpl; [tauto|].
  intros [Hl0 Hresto].
  destruct (linha_total l0 =? 0) eqn:E; [|now apply IH].
  apply Z.eqb_eq in E.
  intros [<-|Hin]; [lia|].
  specialize (Hl0 l Hin). lia.
Qed.

Lemma total_nao_zero_ate_zero linhas l :
  descendente linhas ->
  (forall l', In l' linhas -> 0 <= linha_total l') ->
  In l linhas -> linha_total l <> 0 -> In l (ate_zero linhas).
Proof.
  intros Hdesc Hnn Hin Hnz.
  rewrite (ate_zero_depois_do_zero linhas) in Hin.
  apply in_app_or in Hin as [Hin|Hin]; [exact Hin|].
  pose proof (depois_do_zero_nao_positivo _ _ Hdesc Hin) as Hle.
  assert (0 <= linha_total l).
  { apply Hnn. rewrite (ate_zero_depois_do_zero linhas).
    apply in_or_app. now right. }
  lia.
Qed.

Lemma classificacao_tem_posicao i posicao ultima linhas l :
  In l (ate_zero linhas) ->
  exists posicao',
    In (linha_id l, posicao', pontos_da_posicao posicao')
       (classificacao i posicao ultima linhas).
Proof.
  revert i posicao ultima.
  induction linhas as [|[[pid nome] total] resto IH]; intros i posicao ultima;
    simpl; [tauto|].
  unfold linha_total; simpl.
  destruct (total =? 0); [intros []|].
  intros [<-|Hin].
  - eexists. left. reflexivity.
  - destruct (IH (S i) (if total <? ultima then i else posicao) total Hin)
      as [posicao' H].
    exists posicao'. now right.
Qed.

(** The participants from the first total 0 on are not among the ones the
    walk reaches. *)
Lemma depois_do_zero_fora linhas l :
  NoDup (map linha_id linhas) ->
  In l (depois_do_zero linhas) ->
  ~ In (linha_id l) (map linha_id (ate_zero linhas)).
Proof.
  induction linhas as [|l0 resto IH]; simpl; [tauto|].
  intros Hnd. inversion Hnd as [|x xs Hnotin Hnd']; subst.
  destruct (linha_total l0 =? 0); [simpl; tauto|].
  intros Hin [Heq|Hin'].
  - apply Hnotin. rewrite Heq. apply in_map.
    rewrite (ate_zero_depois_do_zero resto). apply in_or_app. now right.
  - exact (IH Hnd' Hin Hin').
Qed.

Lemma In_copy8 semana db r :
  In r (pontuacoes_rodada (AppCopy8.calcular_pontos_f1_por_rodada semana db))
  <->
  (In r (pontuacoes_rodada db) /\ PontuacaoRodada.semana r <> semana) \/
  In r (map (linha_rodada semana) (classificacao_da_rodada semana db)).
Proof.
  rewrite copy8_pontuacoes_rodada, in_app_iff, filter_In.
  unfold da_semana. rewrite negb_true_iff, Z.eqb_neq. reflexivity.
Qed.

Lemma sem_linha_copy8 semana db participante_id :
  ~ In participante_id
       (map linha_id (ate_zero (pontuacoes_raw_por_participante semana db))) ->
  sem_linha participante_id semana
    (pontuacoes_rodada (AppCopy8.calcular_pontos_f1_por_rodada semana db)).
Proof.
  intros Hfora r Hin [Hid Hsem].
  apply In_copy8 in Hin as [[_ Hne]|Hin]; [contradiction|].
  apply in_map_iff in Hin as [c [<- Hc]].
  apply Hfora. unfold classificacao_da_rodada in Hc.
  rewrite <- (classificacao_ids 0%nat 0%nat (-1)
                (pontuacoes_raw_por_participante semana db)).
  simpl in Hid. rewrite <- Hid. now apply (in_map cl_id).
Qed.

(** ** The writes of [app.py] *)

Section Registrar.

Variables participante_id semana : Z.

Lemma do_participante_na_semana_iff r :
  do_participante_na_semana participante_id semana r = true <->
  chave r = (participante_id, semana).
Proof.
  unfold do_participante_na_semana, chave.
  rewrite andb_true_iff, !Z.eqb_eq. split.
  - intros [-> ->]. reflexivity.
  - intros H. now inversion H.
Qed.

Lemma do_participante_na_semana_false r :
  do_participante_na_semana participante_id semana r = false <->
  chave r <> (participante_id, semana).
Proof.
  rewrite <- do_participante_na_semana_iff.
  destruct (do_participante_na_semana participante_id semana r);
    split; congruence.
Qed.

Lemma chave_substituir_primeiro novo rs :
  chave novo = (participante_id, semana) ->
  map chave (App.substituir_primeiro participante_id semana novo rs)
  = map chave rs.
Proof.
  intros Hnovo. induction rs as [|r rs IH]; simpl; [reflexivity|].
  destruct (do_participante_na_semana participante_id semana r) eqn:E; simpl.
  - apply do_participante_na_semana_iff in E. now rewrite Hnovo, E.
  - now f_equal.
Qed.

(** Rows with another key are not touched by the replacement. *)
Lemma In_substituir_primeiro_outra novo rs r :
  chave novo = (participante_id, semana) ->
  chave r <> (participante_id, semana) ->
  In r (App.substituir_primeiro participante_id semana novo rs) <-> In r rs.
Proof.
  intros Hnovo Hr. induction rs as [|r0 rs IH]; simpl; [reflexivity|].
  destruct (do_participante_na_semana participante_id semana r0) eqn:E; simpl.
  - apply do_participante_na_semana_iff in E.
    split; (intros [Heq|Hin]; [|now right]); subst; congruence.
  - rewrite IH. reflexivity.
Qed.

Lemma In_substituir_primeiro_novo novo rs e :
  In e rs -> chave e = (participante_id, semana) ->
  In novo (App.substituir_primeiro participante_id semana novo rs).
Proof.
  intros Hin He. induction rs as [|r0 rs IH]; simpl; [destruct Hin|].
  destruct (do_participante_na_semana participante_id semana r0) eqn:E;
    [now left|].
  right. destruct Hin as [->|Hin]; [|now apply IH].
  apply do_participante_na_semana_false in E. contradiction.
Qed.

(** With the unique constraint, the replacement leaves a single row with the
    key. *)
Lemma In_substituir_primeiro_chave novo rs r :
  chave_unica rs ->
  In r (App.substituir_primeiro participante_id semana novo rs) ->
  chave r = (participante_id, semana) -> r = novo.
Proof.
  unfold chave_unica. induction rs as [|r0 rs IH]; simpl; [tauto|].
  intros Hnd. inversion Hnd as [|x xs Hnotin Hnd']; subst.
  destruct (do_participante_na_semana participante_id semana r0) eqn:E.
  - apply do_participante_na_semana_iff in E.
    intros [Heq|Hin] Hr; [now symmetry|].
    exfalso. apply Hnotin. rewrite E, <- Hr. now apply in_map.
  - apply do_participante_na_semana_false in E.
    intros [Heq|Hin] Hr; [subst; contradiction|now apply IH].
Qed.

Lemma set_pontos_f1_existente e pontos_f1 :
  chave e = (participante_id, semana) ->
  PontuacaoRodada.set_pontos_f1 e pontos_f1 =
  PontuacaoRodada.mk participante_id semana pontos_f1.
Proof.
  destruct e as [p s v]. unfold chave, PontuacaoRodada.set_pontos_f1; simpl.
  intros H. now inversion H.
Qed.

Lemma existente_igual e pontos_f1 :
  chave e = (participante_id, semana) ->
  PontuacaoRodada.pontos_f1 e = pontos_f1 ->
  e = PontuacaoRodada.mk participante_id semana pontos_f1.
Proof.
  destruct e as [p s v]. unfold chave; simpl.
  intros H <-. now inversion H.
Qed.

(** After the write of an iteration the table holds the row of the
    iteration. *)
Lemma In_registrar_novo pontos_f1 rs :
  In (PontuacaoRodada.mk participante_id semana pontos_f1)
     (App.registrar participante_id semana pontos_f1 rs).
Proof.
  unfold App.registrar.
  destruct (find _ rs) as [e|] eqn:F.
  - apply find_some in F as [Hin He].
    apply do_participante_na_semana_iff in He.
    destruct (PontuacaoRodada.pontos_f1 e =? pontos_f1) eqn:E; simpl.
    + apply Z.eqb_eq in E. now rewrite <- (existente_igual e _ He E).
    + rewrite (set_pontos_f1_existente _ _ He).
      now apply (In_substituir_primeiro_novo _ _ e).
  - apply in_or_app. right. now left.
Qed.

(** The write of an iteration touches no row with another key. *)
Lemma In_registrar_outra pontos_f1 rs r :
  chave r <> (participante_id, semana) ->
  In r (App.registrar participante_id semana pontos_f1 rs) <-> In r rs.
Proof.
  intros Hr. unfold App.registrar.
  destruct (find _ rs) as [e|] eqn:F.
  - apply find_some in F as [Hin He].
    apply do_participante_na_semana_iff in He.
    destruct (PontuacaoRodada.pontos_f1 e =? pontos_f1); simpl;
      [reflexivity|].
    apply In_substituir_primeiro_outra; [|exact Hr].
    now rewrite (set_pontos_f1_existente _ _ He).
  - rewrite in_app_iff. simpl. split; [|tauto].
    intros [H|[<-|[]]]; [exact H|]. now elim Hr.
Qed.

Lemma In_registrar_chave pontos_f1 rs r :
  chave_unica rs ->
  In r (App.registrar participante_id semana pontos_f1 rs) ->
  chave r = (participante_id, semana) ->
  r = PontuacaoRodada.mk participante_id semana pontos_f1.
Proof.
  intros Hu. unfold App.registrar.
  destruct (find _ rs) as [e|] eqn:F.
  - apply find_some in F as [Hin He].
    apply do_participante_na_semana_iff in He.
    destruct (PontuacaoRodada.pontos_f1 e =? pontos_f1) eqn:E; simpl.
    + apply Z.eqb_eq in E. intros Hr Hk.
      rewrite <- (existente_igual e _ He E).
      destruct (in_split _ _ Hin) as [l1 [l2 ->]].
      unfold chave_unica in Hu. rewrite map_app in Hu. simpl in Hu.
      apply NoDup_remove_2 in Hu.
      apply in_app_or in Hr as [Hr|[Hr|Hr]]; [|now symmetry|];
        exfalso; apply Hu; apply in_or_app;
        [left|right]; rewrite He, <- Hk; now apply in_map.
    + rewrite (set_pontos_f1_existente _ _ He).
      apply In_substituir_primeiro_chave. exact Hu.
  - intros Hr Hk. apply in_app_or in Hr as [Hr|[<-|[]]]; [|reflexivity].
    pose proof (find_none _ _ F _ Hr) as Hf.
    apply do_participante_na_semana_false in Hf. contradiction.
Qed.

(** The write of an iteration keeps the unique constraint. *)
Lemma chave_unica_registrar pontos_f1 rs :
  chave_unica rs ->
  chave_unica (App.registrar participante_id semana pontos_f1 rs).
Proof.
  intros Hu. unfold App.registrar.
  destruct (find _ rs) as [e|] eqn:F.
  - apply find_some in F as [Hin He].
    apply do_participante_na_semana_iff in He.
    destruct (PontuacaoRodada.pontos_f1 e =? pontos_f1); simpl;
      [exact Hu|].
    unfold chave_unica. rewrite chave_substituir_primeiro; [exact Hu|].
    now rewrite (set_pontos_f1_existente _ _ He).
  - unfold chave_unica. rewrite map_app. simpl.
    apply (Permutation_NoDup (l := (participante_id, semana) :: map chave rs)).
    + apply Permutation_cons_append.
    + constructor; [|exact Hu].
      intros Hin. apply in_map_iff in Hin as [r [Hk Hr]].
      pose proof (find_none _ _ F _ Hr) as Hf.
      apply do_participante_na_semana_false in Hf. contradiction.
Qed.

End Registrar.

Section RegistrarTodos.

Variable semana : Z.

Lemma chave_linha_rodada c : chave (linha_rodada semana c) = (cl_id c, semana).
Proof. reflexivity. Qed.

Lemma linha_rodada_mk c :
  PontuacaoRodada.mk (cl_id c) semana (cl_pontos c) = linha_rodada semana c.
Proof. reflexivity. Qed.

Lemma chave_unica_registrar_todos cs rs :
  chave_unica rs -> chave_unica (registrar_todos semana cs rs).
Proof.
  unfold registrar_todos. revert rs.
  induction cs as [|c cs IH]; intros rs Hu; simpl; [exact Hu|].
  apply IH. now apply chave_unica_registrar.
Qed.

(** A row whose key is none of the walk's stays as it was. *)
Lemma In_registrar_todos_outra cs rs r :
  (forall c, In c cs -> chave r <> (cl_id c, semana)) ->
  In r (registrar_todos semana cs rs) <-> In r rs.
Proof.
  unfold registrar_todos. revert rs.
  induction cs as [|c cs IH]; intros rs Hr; simpl; [reflexivity|].
  rewrite IH.
  - apply In_registrar_outra. apply Hr. now left.
  - intros c' Hc'. apply Hr. now right.
Qed.

(** Every entry of the walk leaves its row in the table. *)
Lemma In_registrar_todos_nova cs rs c :
  NoDup (map cl_id cs) -> In c cs ->
  In (linha_rodada semana c) (registrar_todos semana cs rs).
Proof.
  revert rs. induction cs as [|c0 cs IH]; intros rs Hnd Hin;
    [destruct Hin|].
  simpl in Hnd. inversion Hnd as [|x xs Hnotin Hnd']; subst.
  destruct Hin as [->|Hin].
  - apply (In_registrar_todos_outra cs).
    + intros c' Hc' Hk. rewrite chave_linha_rodada in Hk.
      apply Hnotin. inversion Hk as [Hid]. rewrite Hid.
      now apply in_map.
    + rewrite <- linha_rodada_mk. apply In_registrar_novo.
  - now apply (IH _ Hnd' Hin).
Qed.

(** With the unique constraint, the table after the walk holds the rows of
    the walk and the earlier rows with other keys, and nothing else. *)
Lemma In_registrar_todos cs rs r :
  chave_unica rs -> NoDup (map cl_id cs) ->
  In r (registrar_todos semana cs rs) <->
  In r (map (linha_rodada semana) cs) \/
  (In r rs /\ forall c, In c cs -> chave r <> (cl_id c, semana)).
Proof.
  unfold registrar_todos. revert rs.
  induction cs as [|c cs IH]; intros rs Hu Hnd; simpl.
  - split; [intros H; right; split; [exact H|intros c []]|].
    intros [[]|[H _]]. exact H.
  - simpl in Hnd. inversion Hnd as [|x xs Hnotin Hnd']; subst.
    rewrite (IH _ (chave_unica_registrar _ _ _ _ Hu) Hnd').
    split.
    + intros [Hin|[Hin Hout]]; [left; now right|].
      destruct (Z.eq_dec (PontuacaoRodada.participante_id r) (cl_id c))
        as [Hid|Hid];
        [destruct (Z.eq_dec (PontuacaoRodada.semana r) semana) as [Hs|Hs]|].
      * left. left. symmetry. rewrite <- linha_rodada_mk.
        apply (In_registrar_chave _ _ _ _ _ Hu Hin).
        unfold chave. now rewrite Hid, Hs.
      * assert (Hk : chave r <> (cl_id c, semana))
          by (unfold chave; intros H; now inversion H).
        right. split;
          [exact (proj1 (In_registrar_outra _ _ (cl_pontos c) rs _ Hk) Hin)|].
        intros c' [<-|Hc']; [exact Hk|now apply Hout].
      * assert (Hk : chave r <> (cl_id c, semana))
          by (unfold chave; intros H; now inversion H).
        right. split;
          [exact (proj1 (In_registrar_outra _ _ (cl_pontos c) rs _ Hk) Hin)|].
        intros c' [<-|Hc']; [exact Hk|now apply Hout].
    + intros [[Heq|Hin]|[Hin Hout]].
      * right. subst r. split.
        -- rewrite <- linha_rodada_mk. apply In_registrar_novo.
        -- intros c' Hc' Hk. rewrite chave_linha_rodada in Hk.
           apply Hnotin. inversion Hk as [Hid]. rewrite Hid.
           now apply in_map.
      * now left.
      * right. split.
        -- apply In_registrar_outra; [|exact Hin]. apply Hout. now left.
        -- intros c' Hc'. apply Hout. now right.
Qed.

End RegistrarTodos.

Lemma app_pontuacoes_rodada semana db :
  pontuacoes_rodada (App.calcular_pontos_f1_por_rodada semana db) =
  registrar_todos semana (classificacao_da_rodada semana db)
    (pontuacoes_rodada db).
Proof.
  unfold App.calcular_pontos_f1_por_rodada. simpl. apply percorrer_app.
Qed.

Lemma classificacao_da_rodada_ids semana db :
  chave_primaria db -> NoDup (map cl_id (classificacao_da_rodada semana db)).
Proof.
  intros Hpk. unfold classificacao_da_rodada. rewrite classificacao_ids.
  pose proof (pontuacoes_raw_ids semana db Hpk) as Hnd.
  rewrite (ate_zero_depois_do_zero _), map_app in Hnd.
  exact (NoDup_app_remove_r _ _ Hnd).
Qed.

Lemma In_app semana db r :
  chave_primaria db -> chave_unica (pontuacoes_rodada db) ->
  In r (pontuacoes_rodada (App.calcular_pontos_f1_por_rodada semana db)) <->
  In r (map (linha_rodada semana) (classificacao_da_rodada semana db)) \/
  (In r (pontuacoes_rodada db) /\
   forall c, In c (classificacao_da_rodada semana db) ->
             chave r <> (cl_id c, semana)).
Proof.
  intros Hpk Hu. rewrite app_pontuacoes_rodada.
  apply In_registrar_todos; [exact Hu|].
  now apply classificacao_da_rodada_ids.
Qed.

(** The walk of [app.py] writes nothing for a participant it does not
    reach. *)
Lemma app_nao_registra semana db participante_id r :
  ~ In participante_id
       (map linha_id (ate_zero (pontuacoes_raw_por_participante semana db))) ->
  chave r = (participante_id, semana) ->
  In r (pontuacoes_rodada (App.calcular_pontos_f1_por_rodada semana db)) <->
  In r (pontuacoes_rodada db).
Proof.
  intros Hfora Hk. rewrite app_pontuacoes_rodada.
  apply In_registrar_todos_outra.
  intros c Hc Hk'. apply Hfora.
  rewrite <- (classificacao_ids 0%nat 0%nat (-1)
                (pontuacoes_raw_por_participante semana db)).
  rewrite Hk in Hk'. injection Hk' as ->. now apply (in_map cl_id).
Qed.

(** C8. Under the primary key of [Participante], after the Round Ranker of
    [app copy 8.py] ran for a round, a participant whose aggregated raw total
    is 0 has no row for that round, and the Round Ranker of [app.py] writes
    none for that participant; the walk is the walk over the entries before
    the first total 0, and every entry from the first total 0 on has a total
    of at most 0 and leaves its participant without a row. *)
Theorem total_zero_sem_linha :
  forall (semana : Z) (db : DB),
    chave_primaria db ->
    let linhas := pontuacoes_raw_por_participante semana db in
    let db' := AppCopy8.calcular_pontos_f1_por_rodada semana db in
    (forall participante_id nome,
        In (participante_id, nome, 0) linhas ->
        sem_linha participante_id semana (pontuacoes_rodada db') /\
        (forall r,
            chave r = (participante_id, semana) ->
            In r (pontuacoes_rodada
                    (App.calcular_pontos_f1_por_rodada semana db)) <->
            In r (pontuacoes_rodada db))) /\
    classificacao_da_rodada semana db =
      classificacao 0 0 (-1) (ate_zero linhas) /\
    linhas = ate_zero linhas ++ depois_do_zero linhas /\
    (forall l, In l (ate_zero linhas) -> linha_total l <> 0) /\
    (forall l,
        In l (depois_do_zero linhas) ->
        linha_total l <= 0 /\
        sem_linha (linha_id l) semana (pontuacoes_rodada db')).
Proof.
  intros semana db Hpk linhas db'. subst linhas db'.
  pose proof (pontuacoes_raw_ids semana db Hpk) as Hnd.
  pose proof (pontuacoes_raw_descendente semana db) as Hdesc.
  split; [|split; [|split; [|split]]].
  - intros pid nome Hin.
    rewrite (ate_zero_depois_do_zero _) in Hin.
    apply in_app_or in Hin as [Hin|Hin].
    + apply ate_zero_total in Hin. now elim Hin.
    + pose proof (depois_do_zero_fora _ _ Hnd Hin) as Hfora.
      split; [now apply sem_linha_copy8|].
      intros r Hk. now apply (app_nao_registra _ _ pid).
  - apply classificacao_ate_zero.
  - apply ate_zero_depois_do_zero.
  - intros l. apply ate_zero_total.
  - intros l Hl. split; [exact (depois_do_zero_nao_positivo _ _ Hdesc Hl)|].
    apply sem_linha_copy8. now apply depois_do_zero_fora.
Qed.

(** ** The position of the walk is the competition rank *)

Lemma acima_app total l1 l2 :
  acima total (l1 ++ l2) = (acima total l1 + acima total l2)%nat.
Proof. unfold acima. now rewrite filter_app, length_app. Qed.

Lemma acima_todas total linhas :
  (forall l, In l linhas -> total < linha_total l) ->
  acima total linhas = List.length linhas.
Proof.
  unfold acima. induction linhas as [|l resto IH]; simpl; intros H;
    [reflexivity|].
  assert (Hl : (total <? linha_total l) = true)
    by (apply Z.ltb_lt; apply H; now left).
  rewrite Hl. simpl. f_equal. apply IH. intros l' Hl'. apply H. now right.
Qed.

Lemma acima_nenhuma total linhas :
  (forall l, In l linhas -> linha_total l <= total) ->
  acima total linhas = 0%nat.
Proof.
  unfold acima. induction linhas as [|l resto IH]; simpl; intros H;
    [reflexivity|].
  assert (Hl : (total <? linha_total l) = false)
    by (apply Z.ltb_ge; apply H; now left).
  rewrite Hl. apply IH. intros l' Hl'. apply H. now right.
Qed.

(** The invariant of the loop: [prefixo] holds the entries already walked,
    none of them below [ultima], and [posicao] counts the ones above it. *)
Lemma classificacao_posicao_inv resto :
  forall prefixo posicao ultima c,
    descendente resto ->
    (forall l, In l prefixo -> ultima <= linha_total l) ->
    (prefixo <> [] -> forall l, In l resto -> linha_total l <= ultima) ->
    posicao = acima ultima prefixo ->
    In c (classificacao (List.length prefixo) posicao ultima resto) ->
    exists nome total,
      In (cl_id c, nome, total) resto /\
      cl_posicao c = acima total (prefixo ++ resto).
Proof.
  induction resto as [|[[pid nome] total] resto IH];
    intros prefixo posicao ultima c Hdesc Hpre Hult Hpos; simpl; [tauto|].
  destruct Hdesc as [Hhead Hdesc].
  destruct (total =? 0); [intros []|].
  set (posicao' := if total <? ultima then List.length prefixo else posicao).
  assert (Hpos' : posicao' = acima total prefixo).
  { subst posicao'. destruct (Z.ltb_spec total ultima) as [Hlt|Hge].
    - symmetry. apply acima_todas. intros l Hl. specialize (Hpre l Hl). lia.
    - destruct prefixo as [|l0 prefixo0]; [subst posicao; reflexivity|].
      assert (Hne : l0 :: prefixo0 <> []) by discriminate.
      assert (Heq : total = ultima).
      { assert (total <= ultima)
          by (apply (Hult Hne (pid, nome, total)); now left).
        lia. }
      now rewrite Heq. }
  assert (Hresto : acima total (((pid, nome, total) : Linha) :: resto)
                   = 0%nat).
  { apply acima_nenhuma. intros l [<-|Hl]; [unfold linha_total; simpl; lia|].
    exact (Hhead l Hl). }
  intros [<-|Hin].
  - exists nome, total. split; [now left|].
    unfold cl_posicao; cbn [fst snd]. rewrite acima_app, Hresto, Hpos'. lia.
  - destruct (IH (prefixo ++ [(pid, nome, total)]) posicao' total c)
      as [nome' [total' [Hin' Hc]]].
    + exact Hdesc.
    + intros l Hl. apply in_app_or in Hl as [Hl|[<-|[]]];
        [|unfold linha_total; simpl; lia].
      destruct prefixo as [|l0 prefixo0]; [destruct Hl|].
      assert (Hne : l0 :: prefixo0 <> []) by discriminate.
      assert (total <= ultima)
        by (apply (Hult Hne (pid, nome, total)); now left).
      specialize (Hpre l Hl). lia.
    + intros _ l Hl. exact (Hhead l Hl).
    + rewrite acima_app, Hpos'.
      assert (Hself : acima total [((pid, nome, total) : Linha)] = 0%nat).
      { apply acima_nenhuma. intros l [<-|[]]. unfold linha_total; simpl; lia. }
      change (acima total prefixo
              = (acima total prefixo
                 + acima total [((pid, nome, total) : Linha)])%nat).
      rewrite Hself. lia.
    + rewrite length_app. simpl. rewrite Nat.add_1_r. exact Hin.
    + exists nome', total'. split; [now right|].
      rewrite Hc, <- app_assoc. reflexivity.
Qed.

(** Standard competition ranking: the position of an entry of the walk is the
    number of participants of the aggregate with a strictly greater total,
    and its points are the table's at that position. *)
Lemma classificacao_da_rodada_posicao semana db c :
  In c (classificacao_da_rodada semana db) ->
  exists nome total,
    In (cl_id c, nome, total) (pontuacoes_raw_por_participante semana db) /\
    cl_posicao c = acima total (pontuacoes_raw_por_participante semana db) /\
    cl_pontos c = pontos_da_posicao (cl_posicao c).
Proof.
  intros Hc. unfold classificacao_da_rodada in Hc.
  destruct (classificacao_posicao_inv
              (pontuacoes_raw_por_participante semana db) [] 0%nat (-1) c)
    as [nome [total [Hin Hpos]]].
  - apply pontuacoes_raw_descendente.
  - intros l [].
  - intros Hne. now elim Hne.
  - reflexivity.
  - exact Hc.
  - exists nome, total. split; [exact Hin|split; [exact Hpos|]].
    exact (classificacao_pontos _ _ _ _ _ Hc).
Qed.

(** ** The Round Ranker: the claims on positions and points *)

(** C1 (amended). For a round whose aggregated raw totals are exactly 10, 10
    and 7, the walk assigns the positions 0, 0 and 2 and the points 25, 25
    and 15, and the Round Ranker of [app copy 8.py] leaves exactly three
    rows for the round, with 25, 25 and 15 points. *)
Theorem empate_10_10_7 :
  forall (semana : Z) (db : DB),
    map linha_total (pontuacoes_raw_por_participante semana db) = [10; 10; 7] ->
    map cl_posicao (classificacao_da_rodada semana db) = [0; 0; 2]%nat /\
    map cl_pontos (classificacao_da_rodada semana db) = [25; 25; 15] /\
    map PontuacaoRodada.pontos_f1
      (filter (da_semana semana)
         (pontuacoes_rodada
            (AppCopy8.calcular_pontos_f1_por_rodada semana db)))
    = [25; 25; 15].
Proof.
  intros semana db H.
  rewrite copy8_linhas_da_semana. unfold classificacao_da_rodada.
  destruct (pontuacoes_raw_por_participante semana db)
    as [|[[p1 n1] t1] [|[[p2 n2] t2] [|[[p3 n3] t3] [|l4 resto]]]];
    try discriminate.
  unfold linha_total in H. simpl in H.
  inversion H; subst. repeat split.
Qed.

(** C2 (amended). Under the primary key of [Participante] and with raw
    points that are never negative, every participant with a nonzero
    aggregated raw total is assigned a position by the walk; an entry of the
    walk with position 10 or more is awarded 0 points, and both files leave a
    row with 0 points for its participant and the round. *)
Theorem fora_do_top10_linha_com_zero :
  forall (semana : Z) (db : DB),
    chave_primaria db ->
    pontos_nao_negativos db ->
    (forall participante_id nome total,
        In (participante_id, nome, total)
           (pontuacoes_raw_por_participante semana db) ->
        total <> 0 ->
        exists posicao,
          In (participante_id, posicao, pontos_da_posicao posicao)
             (classificacao_da_rodada semana db)) /\
    (forall c,
        In c (classificacao_da_rodada semana db) ->
        (10 <= cl_posicao c)%nat ->
        cl_pontos c = 0 /\
        In (PontuacaoRodada.mk (cl_id c) semana 0)
           (pontuacoes_rodada
              (AppCopy8.calcular_pontos_f1_por_rodada semana db)) /\
        In (PontuacaoRodada.mk (cl_id c) semana 0)
           (pontuacoes_rodada
              (App.calcular_pontos_f1_por_rodada semana db))).
Proof.
  intros semana db Hpk Hnn. split.
  - intros pid nome total Hin Hnz.
    apply (classificacao_tem_posicao 0 0 (-1) _ (pid, nome, total)).
    apply total_nao_zero_ate_zero; try assumption.
    + apply pontuacoes_raw_descendente.
    + intros l'. now apply pontuacoes_raw_nao_negativas.
  - intros c Hc Hpos.
    assert (Hpts : cl_pontos c = 0).
    { rewrite (classificacao_pontos _ _ _ _ _ Hc).
      now apply pontos_da_posicao_fora. }
    assert (Hrow : PontuacaoRodada.mk (cl_id c) semana 0
                   = linha_rodada semana c).
    { unfold linha_rodada. now rewrite <- Hpts. }
    rewrite Hrow. split; [exact Hpts|split].
    + apply In_copy8. right. now apply in_map.
    + rewrite app_pontuacoes_rodada.
      apply In_registrar_todos_nova; [|exact Hc].
      now apply classificacao_da_rodada_ids.
Qed.

(** ** The two Round Rankers compared *)

Lemma In_linha_rodada_semana semana cs r :
  In r (map (linha_rodada semana) cs) ->
  PontuacaoRodada.semana r = semana /\
  In (PontuacaoRodada.participante_id r) (map cl_id cs).
Proof.
  intros Hin. apply in_map_iff in Hin as [c [<- Hc]].
  split; [reflexivity|]. now apply (in_map cl_id).
Qed.

(** C10 (amended). Under the primary key of [Participante] and the unique
    constraint of [PontuacaoRodada], the Round Rankers of [app.py] and of
    [app copy 8.py] leave the same set of rows for the round exactly when
    every earlier row of the round belongs to a participant the walk of this
    run reaches; the rows of the other rounds are the same in any case. *)
Theorem upsert_e_recriacao :
  forall (semana : Z) (db : DB),
    chave_primaria db ->
    chave_unica (pontuacoes_rodada db) ->
    let rs_app :=
      pontuacoes_rodada (App.calcular_pontos_f1_por_rodada semana db) in
    let rs_copy8 :=
      pontuacoes_rodada (AppCopy8.calcular_pontos_f1_por_rodada semana db) in
    (mesmas_linhas (filter (da_semana semana) rs_app)
                   (filter (da_semana semana) rs_copy8) <->
     forall r,
       In r (pontuacoes_rodada db) ->
       PontuacaoRodada.semana r = semana ->
       In (PontuacaoRodada.participante_id r)
          (map cl_id (classificacao_da_rodada semana db))) /\
    mesmas_linhas (filter (fun r => negb (da_semana semana r)) rs_app)
                  (filter (fun r => negb (da_semana semana r)) rs_copy8).
Proof.
  intros semana db Hpk Hu rs_app rs_copy8. subst rs_app rs_copy8.
  unfold mesmas_linhas. split; [split|].
  - (* the same rows: no earlier row is left behind *)
    intros Hsame r Hin Hsem.
    destruct (in_dec Z.eq_dec (PontuacaoRodada.participante_id r)
                (map cl_id (classificacao_da_rodada semana db)))
      as [Hyes|Hno]; [exact Hyes|exfalso].
    assert (Happ : In r (filter (da_semana semana)
                (pontuacoes_rodada
                   (App.calcular_pontos_f1_por_rodada semana db)))).
    { apply filter_In. split; [|unfold da_semana; now apply Z.eqb_eq].
      apply In_app; try assumption. right. split; [exact Hin|].
      intros c Hc Hk. apply Hno. unfold chave in Hk.
      injection Hk as Hid Hs. rewrite Hid. now apply (in_map cl_id). }
    apply Hsame in Happ. rewrite copy8_linhas_da_semana in Happ.
    apply In_linha_rodada_semana in Happ as [_ Hyes]. contradiction.
  - (* no earlier row is left behind: the same rows *)
    intros Hcov r. rewrite !filter_In, In_copy8, In_app by assumption.
    unfold da_semana. rewrite Z.eqb_eq. split.
    + intros [[Hnew|[Hin Hout]] Hsem]; (split; [|exact Hsem]);
        [now right|].
      exfalso. specialize (Hcov r Hin Hsem).
      apply in_map_iff in Hcov as [c [Hid Hc]].
      apply (Hout c Hc). unfold chave. now rewrite Hid, Hsem.
    + intros [[[_ Hne]|Hnew] Hsem]; [contradiction|].
      split; [now left|exact Hsem].
  - intros r. rewrite !filter_In, In_copy8, In_app by assumption.
    unfold da_semana. rewrite negb_true_iff, Z.eqb_neq. split.
    + intros [[Hnew|[Hin _]] Hne]; (split; [|exact Hne]).
      * apply In_linha_rodada_semana in Hnew as [Hs _]. contradiction.
      * now left.
    + intros [[[Hin _]|Hnew] Hne]; (split; [|exact Hne]).
      * right. split; [exact Hin|]. intros c _ Hk.
        unfold chave in Hk. inversion Hk. contradiction.
      * apply In_linha_rodada_semana in Hnew as [Hs _]. contradiction.
Qed.

(** * The properties on the example stores *)

Lemma chave_primaria_tres db :
  participantes db = tres_participantes -> chave_primaria db.
Proof. intros H. unfold chave_primaria. rewrite H. sem_repeticao. Qed.

Lemma chave_primaria_rodada3 : chave_primaria db_rodada3.
Proof. unfold chave_primaria. simpl. sem_repeticao. Qed.

Lemma pontos_nao_negativos_rodada3 : pontos_nao_negativos db_rodada3.
Proof.
  intros palpite Hin. simpl in Hin.
  repeat (destruct Hin as [<-|Hin]; [simpl; lia|]). destruct Hin.
Qed.

Lemma pontuacao_quando_acerta_resultado_witness :
  exists pts,
    nth_error
      (palpites
         (snd (AppCopy8.calcular_e_atualizar_pontuacoes_jogo jogo1 db_rodada1)))
      1
    = Some (Palpite.mk 2 1 "time1_vence" 30 23 pts) /\ pts = 5.
Proof.
  destruct (pontuacao_quando_acerta_resultado jogo1 db_rodada1
              "time1_vence" 27 20 1%nat (Palpite.mk 2 1 "time1_vence" 30 23 0)
              eq_refl eq_refl eq_refl eq_refl eq_refl eq_refl)
    as [pts [H8 [_ [Hk [_ [Hprime _]]]]]].
  exists pts. split.
  - rewrite H8. exact Hk.
  - apply Hprime; [reflexivity|]. right. reflexivity.
Defined.

Lemma pontuacao_quando_erra_resultado_witness :
  nth_error
    (palpites
       (snd (AppCopy8.calcular_e_atualizar_pontuacoes_jogo jogo1 db_rodada1)))
    2
  = Some (Palpite.mk 3 1 "empate" 20 20 0).
Proof.
  destruct (pontuacao_quando_erra_resultado jogo1 db_rodada1
              "time1_vence" 27 20 2%nat (Palpite.mk 3 1 "empate" 20 20 0)
              eq_refl eq_refl eq_refl eq_refl eq_refl)
    as [H8 [_ Hk]].
  - discriminate.
  - rewrite H8. exact Hk.
Defined.

(** C5, as stated, fails on [app.py]: game 3 of round 1 has no result, a
    prediction of it carries 2 raw points, and the Game Scorer returns
    [False] and leaves the 2. *)
Lemma contraexemplo_sem_reset :
  Jogo.resultado jogo3 = None /\
  fst (App.calcular_e_atualizar_pontuacoes_jogo jogo3 db_rodada1) = false /\
  ~ (forall palpite,
        In palpite
           (palpites
              (snd (App.calcular_e_atualizar_pontuacoes_jogo jogo3
                      db_rodada1))) ->
        Palpite.jogo_id palpite = Jogo.id jogo3 ->
        Palpite.pontuacao_recebida palpite = 0).
Proof.
  split; [reflexivity|]. split; [reflexivity|]. intros H.
  specialize (H (Palpite.mk 2 3 "time1_vence" 21 14 2)).
  simpl in H. discriminate H; [tauto|reflexivity].
Qed.

Lemma calcular_sem_resultado_zera_witness :
  (fst (AppCopy8.calcular_e_atualizar_pontuacoes_jogo jogo3 db_rodada1)
   = false /\
   nth_error
     (palpites
        (snd (AppCopy8.calcular_e_atualizar_pontuacoes_jogo jogo3
                db_rodada1)))
     4
   = Some (Palpite.mk 2 3 "time1_vence" 21 14 0)) /\
  App.calcular_e_atualizar_pontuacoes_jogo jogo3 db_rodada1
  = (false, db_rodada1).
Proof.
  destruct (calcular_sem_resultado_zera jogo3 db_rodada1
              (or_introl eq_refl))
    as [Happ [Hfalse [_ [_ [_ [_ [Hk _]]]]]]].
  split; [split; [exact Hfalse|]|exact Happ].
  exact (Hk 4%nat (Palpite.mk 2 3 "time1_vence" 21 14 2) eq_refl).
Defined.

Lemma todos_jogos_semana_finalizados_spec_witness :
  todos_jogos_semana_finalizados 1 db_rodada1 = false /\
  todos_jogos_semana_finalizados 9 db_rodada1 = false.
Proof.
  split.
  - apply not_true_is_false. intros Ht.
    apply (proj1 (todos_jogos_semana_finalizados_spec 1 db_rodada1)) in Ht.
    destruct Ht as [_ Hall].
    destruct (Hall jogo3) as (r & a & b & Hr & _);
      [simpl; tauto|reflexivity|discriminate].
  - apply (proj2 (todos_jogos_semana_finalizados_spec 9 db_rodada1)).
    intros j Hin. simpl in Hin.
    repeat (destruct Hin as [<-|Hin]; [discriminate|]). destruct Hin.
Defined.

Lemma total_zero_sem_linha_witness :
  chave_primaria db_rodada4 /\
  In (2, "Bruno", 0) (pontuacoes_raw_por_participante 4 db_rodada4) /\
  sem_linha 2 4
    (pontuacoes_rodada (AppCopy8.calcular_pontos_f1_por_rodada 4 db_rodada4)).
Proof.
  assert (Hpk : chave_primaria db_rodada4)
    by (apply chave_primaria_tres; reflexivity).
  assert (Hin : In (2, "Bruno", 0)
                   (pontuacoes_raw_por_participante 4 db_rodada4))
    by (vm_compute; tauto).
  split; [exact Hpk|split; [exact Hin|]].
  destruct (total_zero_sem_linha 4 db_rodada4 Hpk) as [Hzero _].
  exact (proj1 (Hzero 2 "Bruno" Hin)).
Defined.

(** C1, as stated, fails on round 2: the totals are 10, 10 and 7, the walk
    assigns the positions 0, 0 and 2 and the Round Ranker awards 25, 25 and
    15 points. *)
Lemma contraexemplo_empate :
  map linha_total (pontuacoes_raw_por_participante 2 db_rodada2) = [10; 10; 7]
  /\
  ~ (map cl_posicao (classificacao_da_rodada 2 db_rodada2) = [0; 0; 1]%nat /\
     map PontuacaoRodada.pontos_f1
       (filter (da_semana 2)
          (pontuacoes_rodada
             (AppCopy8.calcular_pontos_f1_por_rodada 2 db_rodada2)))
     = [25; 25; 18]).
Proof.
  split; [reflexivity|]. intros [Hpos _]. vm_compute in Hpos. discriminate.
Qed.

Lemma empate_10_10_7_witness :
  map cl_posicao (classificacao_da_rodada 2 db_rodada2) = [0; 0; 2]%nat /\
  map cl_pontos (classificacao_da_rodada 2 db_rodada2) = [25; 25; 15] /\
  map PontuacaoRodada.pontos_f1
    (filter (da_semana 2)
       (pontuacoes_rodada
          (AppCopy8.calcular_pontos_f1_por_rodada 2 db_rodada2)))
  = [25; 25; 15].
Proof. apply (empate_10_10_7 2 db_rodada2). reflexivity. Defined.

(** C2, as stated, fails on round 3: the eleventh participant has the raw
    total 1 and the position 10, and the table holds a row for that
    participant after the Round Ranker ran. *)
Lemma contraexemplo_decimo_primeiro :
  In (11, "P", 1) (pontuacoes_raw_por_participante 3 db_rodada3) /\
  In (11, 10%nat, 0) (classificacao_da_rodada 3 db_rodada3) /\
  ~ sem_linha 11 3
      (pontuacoes_rodada (AppCopy8.calcular_pontos_f1_por_rodada 3 db_rodada3))
  /\
  ~ sem_linha 11 3
      (pontuacoes_rodada (App.calcular_pontos_f1_por_rodada 3 db_rodada3)).
Proof.
  split; [vm_compute; tauto|]. split; [vm_compute; tauto|].
  split; intros H;
    apply (H (PontuacaoRodada.mk 11 3 0));
    try (vm_compute; tauto); split; reflexivity.
Qed.

Lemma fora_do_top10_linha_com_zero_witness :
  (chave_primaria db_rodada3 /\ pontos_nao_negativos db_rodada3) /\
  In (PontuacaoRodada.mk 11 3 0)
     (pontuacoes_rodada (AppCopy8.calcular_pontos_f1_por_rodada 3 db_rodada3))
  /\
  In (PontuacaoRodada.mk 11 3 0)
     (pontuacoes_rodada (App.calcular_pontos_f1_por_rodada 3 db_rodada3)).
Proof.
  split; [split; [exact chave_primaria_rodada3
                 |exact pontos_nao_negativos_rodada3]|].
  destruct (fora_do_top10_linha_com_zero 3 db_rodada3
              chave_primaria_rodada3 pontos_nao_negativos_rodada3)
    as [_ Hfora].
  destruct (Hfora (11, 10%nat, 0)) as [_ Hrows].
  - vm_compute. tauto.
  - unfold cl_posicao. simpl. lia.
  - exact Hrows.
Defined.

Lemma chave_unica_rodada2 : chave_unica (pontuacoes_rodada db_rodada2).
Proof. unfold chave_unica. simpl. sem_repeticao. Qed.

(** C10, as stated, fails on round 4: Bruno dropped to the raw total 0; the
    row of the earlier run stays in the table under [app.py] and is deleted
    under [app copy 8.py]. *)
Lemma contraexemplo_linha_antiga :
  chave_primaria db_rodada4 /\
  chave_unica (pontuacoes_rodada db_rodada4) /\
  ~ mesmas_linhas
      (filter (da_semana 4)
         (pontuacoes_rodada (App.calcular_pontos_f1_por_rodada 4 db_rodada4)))
      (filter (da_semana 4)
         (pontuacoes_rodada
            (AppCopy8.calcular_pontos_f1_por_rodada 4 db_rodada4))).
Proof.
  split; [apply chave_primaria_tres; reflexivity|].
  split; [unfold chave_unica; simpl; sem_repeticao|].
  intros H. destruct (H (PontuacaoRodada.mk 2 4 25)) as [Hto _].
  assert (Hfalse : In (PontuacaoRodada.mk 2 4 25)
                      (filter (da_semana 4)
                         (pontuacoes_rodada
                            (AppCopy8.calcular_pontos_f1_por_rodada 4
                               db_rodada4))))
    by (apply Hto; vm_compute; tauto).
  vm_compute in Hfalse. destruct Hfalse as [Heq|[]]. discriminate.
Qed.

Lemma upsert_e_recriacao_witness :
  (chave_primaria db_rodada2 /\ chave_unica (pontuacoes_rodada db_rodada2)) /\
  mesmas_linhas
    (filter (da_semana 2)
       (pontuacoes_rodada (App.calcular_pontos_f1_por_rodada 2 db_rodada2)))
    (filter (da_semana 2)
       (pontuacoes_rodada
          (AppCopy8.calcular_pontos_f1_por_rodada 2 db_rodada2))).
Proof.
  assert (Hpk : chave_primaria db_rodada2)
    by (apply chave_primaria_tres; reflexivity).
  split; [split; [exact Hpk|exact chave_unica_rodada2]|].
  destruct (upsert_e_recriacao 2 db_rodada2 Hpk chave_unica_rodada2)
    as [[_ Hcov] _].
  apply Hcov. intros r Hin Hsem. simpl in Hin.
  destruct Hin as [<-|[<-|[<-|[]]]]; try discriminate; vm_compute; tauto.
Defined.

(** * The Game Scorer as a store transformer *)

(** Both scorers rewrite the raw points of the predictions of the game and
    nothing else: with [h] the new value of a prediction of the game. *)
Lemma para_palpites_set jogo (h : Palpite.t -> Z) ps :
  para_palpites_do_jogo jogo
    (fun p => Palpite.set_pontuacao_recebida p (h p)) ps
  = map (fun p => if Palpite.jogo_id p =? Jogo.id jogo
                  then Palpite.set_pontuacao_recebida p (h p) else p) ps.
Proof. reflexivity. Qed.

Lemma pontuar_palpites_map jogo resultado placar1 placar2 db :
  pontuar_palpites jogo resultado placar1 placar2 db =
  com_palpites db
    (map (fun p =>
            if Palpite.jogo_id p =? Jogo.id jogo
            then Palpite.set_pontuacao_recebida p
                   (pontuacao_atual (is_prime_game jogo) resultado
                      placar1 placar2 p)
            else p)
         (palpites db)).
Proof.
  unfold pontuar_palpites, para_palpites_do_jogo. f_equal.
  apply map_ext. intros p.
  destruct (Palpite.jogo_id p =? Jogo.id jogo); [|reflexivity].
  apply atualizar_pontuacao_set.
Qed.

Lemma pontuacao_atual_set prime resultado placar1 placar2 p v :
  pontuacao_atual prime resultado placar1 placar2
    (Palpite.set_pontuacao_recebida p v)
  = pontuacao_atual prime resultado placar1 placar2 p.
Proof. reflexivity. Qed.

Lemma set_pontuacao_recebida_set p v w :
  Palpite.set_pontuacao_recebida (Palpite.set_pontuacao_recebida p v) w
  = Palpite.set_pontuacao_recebida p w.
Proof. reflexivity. Qed.

Lemma com_palpites_com_palpites db ps ps' :
  com_palpites (com_palpites db ps) ps' = com_palpites db ps'.
Proof. reflexivity. Qed.

Lemma pontuar_palpites_idem jogo resultado placar1 placar2 db :
  pontuar_palpites jogo resultado placar1 placar2
    (pontuar_palpites jogo resultado placar1 placar2 db)
  = pontuar_palpites jogo resultado placar1 placar2 db.
Proof.
  rewrite !pontuar_palpites_map. simpl. unfold com_palpites. simpl. f_equal.
  rewrite map_map. apply map_ext. intros p.
  destruct (Palpite.jogo_id p =? Jogo.id jogo) eqn:E; simpl; now rewrite E.
Qed.

Lemma zerar_idem jogo p : zerar jogo (zerar jogo p) = zerar jogo p.
Proof.
  unfold zerar. destruct (Palpite.jogo_id p =? Jogo.id jogo) eqn:E; simpl;
    now rewrite E.
Qed.

Lemma calcular_idem :
  forall (jogo : Jogo.t) (db : DB),
    AppCopy8.calcular_e_atualizar_pontuacoes_jogo jogo
      (snd (AppCopy8.calcular_e_atualizar_pontuacoes_jogo jogo db))
    = AppCopy8.calcular_e_atualizar_pontuacoes_jogo jogo db /\
    App.calcular_e_atualizar_pontuacoes_jogo jogo
      (snd (App.calcular_e_atualizar_pontuacoes_jogo jogo db))
    = App.calcular_e_atualizar_pontuacoes_jogo jogo db.
Proof.
  intros jogo db.
  destruct (sem_resultado jogo) eqn:E.
  - assert (H : Jogo.resultado jogo = None \/
                Jogo.placar_time1_final jogo = None \/
                Jogo.placar_time2_final jogo = None).
    { unfold sem_resultado in E.
      destruct (Jogo.resultado jogo), (Jogo.placar_time1_final jogo),
        (Jogo.placar_time2_final jogo); try discriminate; tauto. }
    split.
    + rewrite !(sem_resultado_calcular_copy8 _ _ H). simpl.
      unfold com_palpites. simpl. do 2 f_equal.
      rewrite map_map. apply map_ext. intros p. apply zerar_idem.
    + now rewrite !(sem_resultado_calcular_app _ _ H).
  - apply sem_resultado_false_iff in E as (r & a & b & Hr & Ha & Hb).
    destruct (finalizado_calcular jogo db r a b Hr Ha Hb) as [H8 HA].
    rewrite H8, HA. simpl.
    destruct (finalizado_calcular jogo (pontuar_palpites jogo r a b db)
                r a b Hr Ha Hb) as [H8' HA'].
    rewrite H8', HA', pontuar_palpites_idem. split; reflexivity.
Qed.

(** X1. Scoring a game twice in a row leaves the store of the first run: the
    Game Scorer of either file is idempotent, on a game with a result and on
    a game without. *)
Theorem calcular_pontuacoes_idempotente :
  forall (jogo : Jogo.t) (db : DB),
    AppCopy8.calcular_e_atualizar_pontuacoes_jogo jogo
      (snd (AppCopy8.calcular_e_atualizar_pontuacoes_jogo jogo db))
    = AppCopy8.calcular_e_atualizar_pontuacoes_jogo jogo db /\
    App.calcular_e_atualizar_pontuacoes_jogo jogo
      (snd (App.calcular_e_atualizar_pontuacoes_jogo jogo db))
    = App.calcular_e_atualizar_pontuacoes_jogo jogo db.
Proof. exact calcular_idem. Qed.

Lemma Forall2_map_r {A B} (R : A -> B -> Prop) (f : A -> B) l :
  (forall x, In x l -> R x (f x)) -> Forall2 R l (map f l).
Proof.
  induction l as [|x l IH]; simpl; intros H; constructor.
  - apply H. now left.
  - apply IH. intros y Hy. apply H. now right.
Qed.

Lemma so_pontuacao_map jogo (h : Palpite.t -> Z) ps :
  Forall2 (so_pontuacao jogo) ps
    (map (fun p => if Palpite.jogo_id p =? Jogo.id jogo
                   then Palpite.set_pontuacao_recebida p (h p) else p) ps).
Proof.
  apply Forall2_map_r. intros p _. unfold so_pontuacao.
  destruct (Palpite.jogo_id p =? Jogo.id jogo) eqn:E.
  - apply Z.eqb_eq in E. split; [reflexivity|]. intros Hne. contradiction.
  - split; [now destruct p|reflexivity].
Qed.

(** X2. Whatever the state of the game, the Game Scorer of either file
    leaves the participants, the games and the round scores as they are,
    keeps every prediction at its place in the table, changes no column of a
    prediction but its raw points, and changes no prediction of another
    game. *)
Theorem calcular_so_altera_pontuacao :
  forall (jogo : Jogo.t) (db : DB),
    let db8 := snd (AppCopy8.calcular_e_atualizar_pontuacoes_jogo jogo db) in
    let dbA := snd (App.calcular_e_atualizar_pontuacoes_jogo jogo db) in
    (participantes db8 = participantes db /\ jogos db8 = jogos db /\
     pontuacoes_rodada db8 = pontuacoes_rodada db /\
     Forall2 (so_pontuacao jogo) (palpites db) (palpites db8)) /\
    (participantes dbA = participantes db /\ jogos dbA = jogos db /\
     pontuacoes_rodada dbA = pontuacoes_rodada db /\
     Forall2 (so_pontuacao jogo) (palpites db) (palpites dbA)).
Proof.
  intros jogo db db8 dbA. subst db8 dbA.
  destruct (sem_resultado jogo) eqn:E.
  - assert (H : Jogo.resultado jogo = None \/
                Jogo.placar_time1_final jogo = None \/
                Jogo.placar_time2_final jogo = None).
    { unfold sem_resultado in E.
      destruct (Jogo.resultado jogo), (Jogo.placar_time1_final jogo),
        (Jogo.placar_time2_final jogo); try discriminate; tauto. }
    rewrite (sem_resultado_calcular_copy8 _ _ H),
      (sem_resultado_calcular_app _ _ H). simpl.
    repeat split.
    + exact (so_pontuacao_map jogo (fun _ => 0) (palpites db)).
    + replace (palpites db) with
        (map (fun p => if Palpite.jogo_id p =? Jogo.id jogo
                       then Palpite.set_pontuacao_recebida p
                              (Palpite.pontuacao_recebida p)
                       else p) (palpites db)) at 2.
      * apply so_pontuacao_map.
      * rewrite <- (map_id (palpites db)) at 2. apply map_ext.
        intros p. destruct (_ =? _); [now destruct p|reflexivity].
  - apply sem_resultado_false_iff in E as (r & a & b & Hr & Ha & Hb).
    destruct (finalizado_calcular jogo db r a b Hr Ha Hb) as [H8 HA].
    rewrite H8, HA, pontuar_palpites_map. simpl.
    repeat split; apply so_pontuacao_map.
Qed.

Lemma pontuacao_valida_atual prime resultado placar1 placar2 p :
  pontuacao_valida (pontuacao_atual prime resultado placar1 placar2 p).
Proof. exact (pontuacao_atual_valores prime resultado placar1 placar2 p). Qed.

(** X3. After either Game Scorer ran on a game with a result, every
    prediction of that game carries 0, 1, 2, 4 or 5 raw points, whatever it
    carried before; and on any game, a store without negative raw points
    stays without. *)
Theorem calcular_pontuacoes_validas :
  forall (jogo : Jogo.t) (db : DB),
    let db8 := snd (AppCopy8.calcular_e_atualizar_pontuacoes_jogo jogo db) in
    let dbA := snd (App.calcular_e_atualizar_pontuacoes_jogo jogo db) in
    (com_resultado jogo ->
     forall p, (In p (palpites db8) \/ In p (palpites dbA)) ->
               Palpite.jogo_id p = Jogo.id jogo ->
               pontuacao_valida (Palpite.pontuacao_recebida p)) /\
    (pontos_nao_negativos db ->
     pontos_nao_negativos db8 /\ pontos_nao_negativos dbA).
Proof.
  intros jogo db db8 dbA. subst db8 dbA.
  assert (Hfin : forall r a b,
             Jogo.resultado jogo = Some r ->
             Jogo.placar_time1_final jogo = Some a ->
             Jogo.placar_time2_final jogo = Some b ->
             forall p,
               In p (palpites (pontuar_palpites jogo r a b db)) ->
               (Palpite.jogo_id p = Jogo.id jogo ->
                pontuacao_valida (Palpite.pontuacao_recebida p)) /\
               (pontos_nao_negativos db ->
                0 <= Palpite.pontuacao_recebida p)).
  { intros r a b _ _ _ p Hin. rewrite pontuar_palpites_map in Hin.
    simpl in Hin. apply in_map_iff in Hin as [q [<- Hq]].
    destruct (Palpite.jogo_id q =? Jogo.id jogo) eqn:E; simpl.
    - pose proof (pontuacao_valida_atual (is_prime_game jogo) r a b q) as Hv.
      split; [intros _; exact Hv|]. intros _. unfold pontuacao_valida in Hv.
      lia.
    - apply Z.eqb_neq in E. split; [intros Hid; contradiction|].
      intros Hnn. now apply Hnn. }
  split.
  - intros (r & a & b & Hr & Ha & Hb) p Hin Hid.
    destruct (finalizado_calcular jogo db r a b Hr Ha Hb) as [H8 HA].
    rewrite H8, HA in Hin. simpl in Hin.
    assert (Hin' : In p (palpites (pontuar_palpites jogo r a b db)))
      by tauto.
    now apply (Hfin r a b Hr Ha Hb p Hin').
  - intros Hnn. destruct (sem_resultado jogo) eqn:E.
    + assert (H : Jogo.resultado jogo = None \/
                  Jogo.placar_time1_final jogo = None \/
                  Jogo.placar_time2_final jogo = None).
      { unfold sem_resultado in E.
        destruct (Jogo.resultado jogo), (Jogo.placar_time1_final jogo),
          (Jogo.placar_time2_final jogo); try discriminate; tauto. }
      rewrite (sem_resultado_calcular_copy8 _ _ H),
        (sem_resultado_calcular_app _ _ H). simpl.
      split; [|exact Hnn].
      intros p Hin. simpl in Hin. apply in_map_iff in Hin as [q [<- Hq]].
      unfold zerar. destruct (_ =? _); simpl; [lia|now apply Hnn].
    + apply sem_resultado_false_iff in E as (r & a & b & Hr & Ha & Hb).
      destruct (finalizado_calcular jogo db r a b Hr Ha Hb) as [H8 HA].
      rewrite H8, HA. simpl.
      split; intros p Hin; now apply (Hfin r a b Hr Ha Hb p Hin).
Qed.

(** * The Round Ranker as a store transformer *)

Lemma classificacao_da_rodada_com semana db rs :
  classificacao_da_rodada semana (com_pontuacoes_rodada db rs) =
  classificacao_da_rodada semana db.
Proof. reflexivity. Qed.

Lemma copy8_calcular_com semana db :
  AppCopy8.calcular_pontos_f1_por_rodada semana db =
  com_pontuacoes_rodada db
    (filter (fun r => negb (da_semana semana r)) (pontuacoes_rodada db)
     ++ map (linha_rodada semana) (classificacao_da_rodada semana db)).
Proof.
  unfold AppCopy8.calcular_pontos_f1_por_rodada. f_equal.
  apply percorrer_copy8.
Qed.

Lemma app_calcular_com semana db :
  App.calcular_pontos_f1_por_rodada semana db =
  com_pontuacoes_rodada db
    (registrar_todos semana (classificacao_da_rodada semana db)
       (pontuacoes_rodada db)).
Proof.
  unfold App.calcular_pontos_f1_por_rodada. f_equal. apply percorrer_app.
Qed.

Lemma copy8_ranquear_idem semana db :
  AppCopy8.calcular_pontos_f1_por_rodada semana
    (AppCopy8.calcular_pontos_f1_por_rodada semana db)
  = AppCopy8.calcular_pontos_f1_por_rodada semana db.
Proof.
  rewrite !copy8_calcular_com, classificacao_da_rodada_com.
  unfold com_pontuacoes_rodada;
    cbn [participantes jogos palpites pontuacoes_rodada].
  f_equal.
  rewrite filter_app, filter_idem, filter_nenhuma_da_semana, app_nil_r.
  reflexivity.
Qed.

(** X4. Running the Round Ranker of [app copy 8.py] twice in a row for a
    round leaves the store of the first run. *)
Theorem copy8_calcular_pontos_f1_idempotente :
  forall (semana : Z) (db : DB),
    AppCopy8.calcular_pontos_f1_por_rodada semana
      (AppCopy8.calcular_pontos_f1_por_rodada semana db)
    = AppCopy8.calcular_pontos_f1_por_rodada semana db.
Proof. exact copy8_ranquear_idem. Qed.

Lemma chave_unica_inj rs a b :
  chave_unica rs -> In a rs -> In b rs -> chave a = chave b -> a = b.
Proof.
  unfold chave_unica. induction rs as [|r rs IH]; simpl; [tauto|].
  intros Hnd. inversion Hnd as [|x xs Hnotin Hnd']; subst.
  intros [->|Ha] [->|Hb] Hk; try reflexivity.
  - exfalso. apply Hnotin. rewrite Hk. now apply in_map.
  - exfalso. apply Hnotin. rewrite <- Hk. now apply in_map.
  - now apply IH.
Qed.

(** A row that is already in the table, with these points, is left alone. *)
Lemma registrar_fixo participante_id semana pontos_f1 rs :
  chave_unica rs ->
  In (PontuacaoRodada.mk participante_id semana pontos_f1) rs ->
  App.registrar participante_id semana pontos_f1 rs = rs.
Proof.
  intros Hu Hin. unfold App.registrar.
  destruct (find _ rs) as [e|] eqn:F.
  - apply find_some in F as [He Hk].
    apply do_participante_na_semana_iff in Hk.
    assert (Heq : e = PontuacaoRodada.mk participante_id semana pontos_f1)
      by (apply (chave_unica_inj rs); assumption).
    subst e. simpl. now rewrite Z.eqb_refl.
  - pose proof (find_none _ _ F _ Hin) as Hf.
    apply do_participante_na_semana_false in Hf. now elim Hf.
Qed.

Lemma registrar_todos_fixo semana cs rs :
  chave_unica rs ->
  (forall c, In c cs -> In (linha_rodada semana c) rs) ->
  registrar_todos semana cs rs = rs.
Proof.
  intros Hu. unfold registrar_todos.
  induction cs as [|c cs IH]; simpl; intros Hin; [reflexivity|].
  rewrite registrar_fixo; [|exact Hu|].
  - apply IH. intros c' Hc'. apply Hin. now right.
  - rewrite linha_rodada_mk. apply Hin. now left.
Qed.

(** X5. Under the primary key of [Participante] and the unique constraint
    of [PontuacaoRodada], running the Round Ranker of [app.py] twice in a
    row for a round leaves the store of the first run: the second run finds
    every row with the points it would write. *)
Theorem app_calcular_pontos_f1_idempotente :
  forall (semana : Z) (db : DB),
    chave_primaria db ->
    chave_unica (pontuacoes_rodada db) ->
    App.calcular_pontos_f1_por_rodada semana
      (App.calcular_pontos_f1_por_rodada semana db)
    = App.calcular_pontos_f1_por_rodada semana db.
Proof.
  intros semana db Hpk Hu.
  rewrite !app_calcular_com, classificacao_da_rodada_com.
  unfold com_pontuacoes_rodada;
    cbn [participantes jogos palpites pontuacoes_rodada].
  f_equal. apply registrar_todos_fixo.
  - now apply chave_unica_registrar_todos.
  - intros c Hc. apply In_registrar_todos_nova; [|exact Hc].
    now apply classificacao_da_rodada_ids.
Qed.

Lemma chave_unica_filter f rs :
  chave_unica rs -> chave_unica (filter f rs).
Proof.
  unfold chave_unica. induction rs as [|r rs IH]; simpl; intros Hnd;
    [constructor|].
  inversion Hnd as [|x xs Hnotin Hnd']; subst.
  destruct (f r); simpl; [|now apply IH].
  constructor; [|now apply IH].
  intros Hin. apply Hnotin. apply in_map_iff in Hin as [q [Hq Hin]].
  apply filter_In in Hin as [Hin _]. rewrite <- Hq. now apply in_map.
Qed.

Lemma chave_unica_novas semana cs :
  NoDup (map cl_id cs) -> chave_unica (map (linha_rodada semana) cs).
Proof.
  unfold chave_unica. induction cs as [|c cs IH]; simpl; intros Hnd;
    [constructor|].
  inversion Hnd as [|x xs Hnotin Hnd']; subst.
  constructor; [|now apply IH].
  intros Hin. apply Hnotin. rewrite map_map in Hin.
  apply in_map_iff in Hin as [c' [Hk Hc']].
  rewrite !chave_linha_rodada in Hk. injection Hk as <-.
  now apply (in_map cl_id).
Qed.

(** X6. Under the primary key of [Participante], the Round Ranker of either
    file keeps the unique constraint of [PontuacaoRodada]: a table with at
    most one row per participant and round stays so. *)
Theorem calcular_pontos_f1_chave_unica :
  forall (semana : Z) (db : DB),
    chave_primaria db ->
    chave_unica (pontuacoes_rodada db) ->
    chave_unica
      (pontuacoes_rodada (AppCopy8.calcular_pontos_f1_por_rodada semana db))
    /\
    chave_unica
      (pontuacoes_rodada (App.calcular_pontos_f1_por_rodada semana db)).
Proof.
  intros semana db Hpk Hu. split.
  - rewrite copy8_pontuacoes_rodada. unfold chave_unica. rewrite map_app.
    apply NoDup_app.
    + now apply chave_unica_filter.
    + apply chave_unica_novas. now apply classificacao_da_rodada_ids.
    + intros k Hold Hnew.
      apply in_map_iff in Hold as [r [<- Hr]].
      apply filter_In in Hr as [_ Hr]. unfold da_semana in Hr.
      apply negb_true_iff, Z.eqb_neq in Hr.
      apply in_map_iff in Hnew as [r' [Hk Hr']].
      apply in_map_iff in Hr' as [c [<- _]].
      rewrite chave_linha_rodada in Hk. unfold chave in Hk.
      injection Hk as _ Hs. now symmetry in Hs.
  - rewrite app_pontuacoes_rodada. now apply chave_unica_registrar_todos.
Qed.

(** ** The points of a participant, from the totals alone *)

Lemma NoDup_map_In_inj {A B} (f : A -> B) l a b :
  NoDup (map f l) -> In a l -> In b l -> f a = f b -> a = b.
Proof.
  induction l as [|x l IH]; simpl; [tauto|].
  intros Hnd. inversion Hnd as [|y ys Hnotin Hnd']; subst.
  intros [->|Ha] [->|Hb] Hk; try reflexivity.
  - exfalso. apply Hnotin. rewrite Hk. now apply in_map.
  - exfalso. apply Hnotin. rewrite <- Hk. now apply in_map.
  - now apply IH.
Qed.

(** The walk gives the participant of an aggregate row with a nonzero total
    the position "number of rows with a greater total". *)
Lemma classificacao_da_rodada_linha semana db participante_id nome total :
  chave_primaria db ->
  pontos_nao_negativos db ->
  In (participante_id, nome, total)
     (pontuacoes_raw_por_participante semana db) ->
  total <> 0 ->
  In (participante_id,
      acima total (pontuacoes_raw_por_participante semana db),
      pontos_da_posicao
        (acima total (pontuacoes_raw_por_participante semana db)))
     (classificacao_da_rodada semana db).
Proof.
  intros Hpk Hnn Hin Hnz.
  destruct (classificacao_tem_posicao 0 0 (-1)
              (pontuacoes_raw_por_participante semana db)
              (participante_id, nome, total)) as [posicao Hc].
  { apply total_nao_zero_ate_zero; try assumption.
    - apply pontuacoes_raw_descendente.
    - intros l'. now apply pontuacoes_raw_nao_negativas. }
  fold (classificacao_da_rodada semana db) in Hc.
  destruct (classificacao_da_rodada_posicao semana db _ Hc)
    as [nome' [total' [Hin' [Hpos _]]]].
  unfold cl_id, cl_posicao, linha_id in Hin', Hpos. simpl in Hin', Hpos.
  assert (Heq : ((participante_id, nome', total') : Linha)
                = (participante_id, nome, total)).
  { apply (NoDup_map_In_inj linha_id
             (pontuacoes_raw_por_participante semana db));
      [now apply pontuacoes_raw_ids|assumption|assumption|reflexivity]. }
  injection Heq as _ Ht. subst total'. rewrite <- Hpos. exact Hc.
Qed.

Lemma acima_antitona linhas t1 t2 :
  t2 <= t1 -> (acima t1 linhas <= acima t2 linhas)%nat.
Proof.
  intros Hle. unfold acima.
  induction linhas as [|l resto IH]; simpl; [lia|].
  destruct (Z.ltb_spec t1 (linha_total l)) as [H1|H1];
    destruct (Z.ltb_spec t2 (linha_total l)) as [H2|H2]; simpl; lia.
Qed.

Lemma pontos_da_posicao_passo posicao :
  0 <= pontos_da_posicao (S posicao) <= pontos_da_posicao posicao.
Proof.
  do 11 (destruct posicao as [|posicao]; [vm_compute; split; discriminate|]).
  rewrite !pontos_da_posicao_fora by lia. lia.
Qed.

Lemma pontos_da_posicao_antitona p1 p2 :
  (p1 <= p2)%nat -> pontos_da_posicao p2 <= pontos_da_posicao p1.
Proof.
  induction 1 as [|p2 _ IH]; [lia|].
  pose proof (pontos_da_posicao_passo p2). lia.
Qed.

(** X7. Under the primary key of [Participante] and with raw points that
    are never negative, the Round Ranker of either file leaves, for every
    participant with a nonzero raw total in the round, the row whose points
    are the table's entry at "number of participants with a strictly greater
    total" (0 from the tenth on): the award depends on the totals alone, not
    on the order in which the store returns equal totals.  A participant
    nobody outscores gets 25 points. *)
Theorem pontos_f1_pela_colocacao :
  forall (semana : Z) (db : DB) (participante_id : Z) (nome : string)
         (total : Z),
    chave_primaria db ->
    pontos_nao_negativos db ->
    In (participante_id, nome, total)
       (pontuacoes_raw_por_participante semana db) ->
    total <> 0 ->
    let linhas := pontuacoes_raw_por_participante semana db in
    let pontos_f1 := pontos_da_posicao (acima total linhas) in
    In (PontuacaoRodada.mk participante_id semana pontos_f1)
       (pontuacoes_rodada
          (AppCopy8.calcular_pontos_f1_por_rodada semana db)) /\
    In (PontuacaoRodada.mk participante_id semana pontos_f1)
       (pontuacoes_rodada (App.calcular_pontos_f1_por_rodada semana db)) /\
    ((forall l, In l linhas -> linha_total l <= total) -> pontos_f1 = 25).
Proof.
  intros semana db pid nome total Hpk Hnn Hin Hnz linhas pontos_f1.
  subst linhas pontos_f1.
  pose proof (classificacao_da_rodada_linha semana db pid nome total
                Hpk Hnn Hin Hnz) as Hc.
  split; [|split].
  - apply In_copy8. right.
    exact (in_map (linha_rodada semana) _ _ Hc).
  - rewrite app_pontuacoes_rodada.
    apply (In_registrar_todos_nova semana _ _ _
             (classificacao_da_rodada_ids semana db Hpk) Hc).
  - intros Hmax. now rewrite (acima_nenhuma _ _ Hmax).
Qed.

(** X8. Under the same guarantees, of two participants with nonzero raw
    totals in the round the one with the greater or equal total is awarded
    at least as many points by the Round Ranker of [app copy 8.py] and of
    [app.py], and equal totals are awarded equal points. *)
Theorem pontos_f1_monotonos :
  forall (semana : Z) (db : DB) (id1 id2 : Z) (nome1 nome2 : string)
         (total1 total2 : Z),
    chave_primaria db ->
    pontos_nao_negativos db ->
    In (id1, nome1, total1) (pontuacoes_raw_por_participante semana db) ->
    In (id2, nome2, total2) (pontuacoes_raw_por_participante semana db) ->
    total1 <> 0 -> total2 <> 0 ->
    total2 <= total1 ->
    exists pontos1 pontos2,
      (In (PontuacaoRodada.mk id1 semana pontos1)
          (pontuacoes_rodada
             (AppCopy8.calcular_pontos_f1_por_rodada semana db)) /\
       In (PontuacaoRodada.mk id2 semana pontos2)
          (pontuacoes_rodada
             (AppCopy8.calcular_pontos_f1_por_rodada semana db))) /\
      (In (PontuacaoRodada.mk id1 semana pontos1)
          (pontuacoes_rodada (App.calcular_pontos_f1_por_rodada semana db)) /\
       In (PontuacaoRodada.mk id2 semana pontos2)
          (pontuacoes_rodada (App.calcular_pontos_f1_por_rodada semana db)))
      /\
      pontos2 <= pontos1 /\
      (total1 = total2 -> pontos1 = pontos2).
Proof.
  intros semana db id1 id2 nome1 nome2 total1 total2 Hpk Hnn H1 H2 Hz1 Hz2 Hle.
  pose proof (classificacao_da_rodada_linha semana db id1 nome1 total1
                Hpk Hnn H1 Hz1) as Hc1.
  pose proof (classificacao_da_rodada_linha semana db id2 nome2 total2
                Hpk Hnn H2 Hz2) as Hc2.
  pose proof (classificacao_da_rodada_ids semana db Hpk) as Hids.
  eexists _, _. split; [|split; [|split]].
  - split; apply In_copy8; right;
      [exact (in_map (linha_rodada semana) _ _ Hc1)
      |exact (in_map (linha_rodada semana) _ _ Hc2)].
  - rewrite app_pontuacoes_rodada. split;
      [exact (In_registrar_todos_nova semana _ _ _ Hids Hc1)
      |exact (In_registrar_todos_nova semana _ _ _ Hids Hc2)].
  - simpl. apply pontos_da_posicao_antitona. now apply acima_antitona.
  - intros ->. reflexivity.
Qed.

(** * The routes *)

(** ** [definir_resultado] *)

Lemma vazio_false campo :
  vazio campo = false <-> exists s, campo = Some s /\ s <> "".
Proof.
  destruct campo as [s|]; simpl.
  - rewrite String.eqb_neq. split.
    + intros H. now exists s.
    + intros [s' [[= <-] H]]. exact H.
  - split; [discriminate|]. intros [s [H _]]. discriminate.
Qed.

Lemma definir_resultado_sem_efeito :
  forall (int_ : string -> option Z)
         (calcular : Jogo.t -> DB -> bool * DB) (ranquear : Z -> DB -> DB)
         (jogo_id : option Z)
         (resultado placar1_str placar2_str : option string) (db : DB),
    jogo_id = None \/
    vazio resultado = true \/ vazio placar1_str = true \/
    vazio placar2_str = true \/
    (exists id, jogo_id = Some id /\ buscar_jogo id db = None) \/
    (exists s, placar1_str = Some s /\ int_ s = None) \/
    (exists s, placar2_str = Some s /\ int_ s = None) ->
    definir_resultado int_ calcular ranquear
      jogo_id resultado placar1_str placar2_str db = db.
Proof.
  intros int_ calcular ranquear jogo_id resultado p1 p2 db H.
  unfold definir_resultado.
  destruct jogo_id as [id|]; [|reflexivity].
  destruct resultado as [r|]; [|reflexivity].
  destruct p1 as [s1|]; [|reflexivity].
  destruct p2 as [s2|]; [|reflexivity].
  simpl in H.
  destruct (String.eqb r "") eqn:Er; [reflexivity|].
  destruct (String.eqb s1 "") eqn:E1; [reflexivity|].
  destruct (String.eqb s2 "") eqn:E2; [reflexivity|]. simpl.
  destruct H as [H|[H|[H|[H|[H|[H|H]]]]]]; try discriminate.
  - destruct H as [id' [[= <-] Hb]]. now rewrite Hb.
  - destruct H as [s [[= <-] Hi]].
    destruct (buscar_jogo id db); [|reflexivity]. now rewrite Hi.
  - destruct H as [s [[= <-] Hi]].
    destruct (buscar_jogo id db); [|reflexivity]. rewrite Hi.
    now destruct (int_ s1).
Qed.

(** X9. In either file, [definir_resultado] leaves the store as it is when
    a form field is missing or empty, when no game has the identifier, or
    when a score is not an integer. *)
Theorem definir_resultado_recusa :
  forall (int_ : string -> option Z)
         (calcular : Jogo.t -> DB -> bool * DB) (ranquear : Z -> DB -> DB)
         (jogo_id : option Z)
         (resultado placar1_str placar2_str : option string) (db : DB),
    jogo_id = None \/
    vazio resultado = true \/ vazio placar1_str = true \/
    vazio placar2_str = true \/
    (exists id, jogo_id = Some id /\ buscar_jogo id db = None) \/
    (exists s, placar1_str = Some s /\ int_ s = None) \/
    (exists s, placar2_str = Some s /\ int_ s = None) ->
    definir_resultado int_ calcular ranquear
      jogo_id resultado placar1_str placar2_str db = db.
Proof. exact definir_resultado_sem_efeito. Qed.

Section SubstituirPrimeira.

Context {A : Type}.
Variable f : A -> bool.
Variable novo : A.
Hypothesis f_novo : f novo = true.

Lemma find_substituir_primeira js j :
  find f js = Some j ->
  find f (substituir_primeira f novo js) = Some novo.
Proof.
  induction js as [|j0 js IH]; simpl; [discriminate|].
  destruct (f j0) eqn:E; simpl.
  - intros _. now rewrite f_novo.
  - rewrite E. exact IH.
Qed.

Lemma substituir_primeira_idem js :
  substituir_primeira f novo (substituir_primeira f novo js)
  = substituir_primeira f novo js.
Proof.
  induction js as [|j0 js IH]; simpl; [reflexivity|].
  destruct (f j0) eqn:E; simpl.
  - now rewrite f_novo.
  - rewrite E. now f_equal.
Qed.

Lemma In_substituir_primeira js j :
  find f js = Some j -> In novo (substituir_primeira f novo js).
Proof.
  induction js as [|j0 js IH]; simpl; [discriminate|].
  destruct (f j0); [intros _; now left|].
  intros H. right. now apply IH.
Qed.

End SubstituirPrimeira.

Lemma substituir_primeira_None {A} (f : A -> bool) novo js :
  find f js = None -> substituir_primeira f novo js = js.
Proof.
  induction js as [|j0 js IH]; simpl; [reflexivity|].
  destruct (f j0); [discriminate|]. intros H. f_equal. now apply IH.
Qed.

Lemma buscar_jogo_id jogo_id db jogo :
  buscar_jogo jogo_id db = Some jogo -> Jogo.id jogo = jogo_id.
Proof.
  unfold buscar_jogo. intros H. apply find_some in H as [_ H].
  now apply Z.eqb_eq in H.
Qed.

(** The scorers read and write the table of predictions only. *)
Lemma copy8_calcular_com_pontuacoes jogo db rs :
  snd (AppCopy8.calcular_e_atualizar_pontuacoes_jogo jogo
         (com_pontuacoes_rodada db rs))
  = com_pontuacoes_rodada
      (snd (AppCopy8.calcular_e_atualizar_pontuacoes_jogo jogo db)) rs.
Proof.
  unfold AppCopy8.calcular_e_atualizar_pontuacoes_jogo.
  destruct (Jogo.resultado jogo), (Jogo.placar_time1_final jogo),
    (Jogo.placar_time2_final jogo); reflexivity.
Qed.

Lemma copy8_calcular_com_jogos jogo db js :
  snd (AppCopy8.calcular_e_atualizar_pontuacoes_jogo jogo (com_jogos db js))
  = com_jogos
      (snd (AppCopy8.calcular_e_atualizar_pontuacoes_jogo jogo db)) js.
Proof.
  unfold AppCopy8.calcular_e_atualizar_pontuacoes_jogo.
  destruct (Jogo.resultado jogo), (Jogo.placar_time1_final jogo),
    (Jogo.placar_time2_final jogo); reflexivity.
Qed.

Lemma copy8_calcular_jogos jogo db :
  jogos (snd (AppCopy8.calcular_e_atualizar_pontuacoes_jogo jogo db))
  = jogos db.
Proof.
  unfold AppCopy8.calcular_e_atualizar_pontuacoes_jogo.
  destruct (Jogo.resultado jogo), (Jogo.placar_time1_final jogo),
    (Jogo.placar_time2_final jogo); reflexivity.
Qed.

(** The completeness test reads the table of games only. *)
Lemma todos_finalizados_jogos semana db db' :
  jogos db' = jogos db ->
  todos_jogos_semana_finalizados semana db' =
  todos_jogos_semana_finalizados semana db.
Proof.
  intros H. unfold todos_jogos_semana_finalizados, jogos_da_semana.
  now rewrite H.
Qed.

Lemma copy8_ranquear_jogos semana db :
  jogos (AppCopy8.calcular_pontos_f1_por_rodada semana db) = jogos db.
Proof. reflexivity. Qed.

Lemma copy8_recalcular_jogos semana db :
  jogos (recalcular_se_finalizada AppCopy8.calcular_pontos_f1_por_rodada
           semana db) = jogos db.
Proof.
  unfold recalcular_se_finalizada.
  now destruct (todos_jogos_semana_finalizados semana db).
Qed.

Lemma copy8_recalcular_idem semana db :
  recalcular_se_finalizada AppCopy8.calcular_pontos_f1_por_rodada semana
    (recalcular_se_finalizada AppCopy8.calcular_pontos_f1_por_rodada
       semana db)
  = recalcular_se_finalizada AppCopy8.calcular_pontos_f1_por_rodada
      semana db.
Proof.
  unfold recalcular_se_finalizada.
  destruct (todos_jogos_semana_finalizados semana db) eqn:E.
  - rewrite (todos_finalizados_jogos semana db _
               (copy8_ranquear_jogos semana db)), E.
    apply copy8_ranquear_idem.
  - now rewrite E.
Qed.

Lemma definir_resultado_aceita int_ calcular ranquear
    jogo_id resultado placar1_str placar2_str placar1 placar2 jogo db :
  resultado <> "" -> placar1_str <> "" -> placar2_str <> "" ->
  buscar_jogo jogo_id db = Some jogo ->
  int_ placar1_str = Some placar1 ->
  int_ placar2_str = Some placar2 ->
  inteiro_sqlite placar1 = true ->
  inteiro_sqlite placar2 = true ->
  let jogo' :=
    jogo_com_resultado jogo (Some resultado) (Some placar1) (Some placar2) in
  definir_resultado int_ calcular ranquear (Some jogo_id) (Some resultado)
    (Some placar1_str) (Some placar2_str) db
  = recalcular_se_finalizada ranquear (Jogo.semana jogo)
      (snd (calcular jogo'
              (com_jogos db
                 (substituir_primeira (tem_id jogo_id) jogo'
                    (jogos db))))).
Proof.
  intros Hr H1 H2 Hb Hi1 Hi2 Hc1 Hc2 jogo'. unfold definir_resultado.
  apply String.eqb_neq in Hr, H1, H2. rewrite Hr, H1, H2. simpl.
  rewrite Hb, Hi1, Hi2, Hc1, Hc2. reflexivity.
Qed.

(** A score that SQLite cannot hold: the flush fails and the rollback undoes
    what the route staged. *)
Lemma definir_resultado_estouro int_ calcular ranquear
    jogo_id resultado placar1_str placar2_str placar1 placar2 db :
  int_ placar1_str = Some placar1 ->
  int_ placar2_str = Some placar2 ->
  inteiro_sqlite placar1 = false \/ inteiro_sqlite placar2 = false ->
  definir_resultado int_ calcular ranquear jogo_id resultado
    (Some placar1_str) (Some placar2_str) db = db.
Proof.
  intros Hi1 Hi2 Hc. unfold definir_resultado.
  destruct jogo_id as [id|]; [|reflexivity].
  destruct resultado as [r|]; [|reflexivity].
  destruct (_ || _); [reflexivity|].
  destruct (buscar_jogo id db); [|reflexivity].
  rewrite Hi1, Hi2.
  destruct Hc as [-> | ->]; [reflexivity|].
  now rewrite andb_false_r.
Qed.

Lemma In_pontuar_palpites jogo resultado placar1 placar2 db p :
  In p (palpites (pontuar_palpites jogo resultado placar1 placar2 db)) ->
  Palpite.jogo_id p = Jogo.id jogo ->
  Palpite.pontuacao_recebida p =
  pontuacao_atual (is_prime_game jogo) resultado placar1 placar2 p.
Proof.
  rewrite pontuar_palpites_map. simpl. intros Hin Hid.
  apply in_map_iff in Hin as [q [<- Hq]].
  destruct (Palpite.jogo_id q =? Jogo.id jogo) eqn:E; [reflexivity|].
  apply Z.eqb_neq in E. contradiction.
Qed.

(** X10. When the form sent to [definir_resultado] of [app copy 8.py] is
    complete (all fields filled, the game exists, both scores are integers).
    If both scores fit a SQLite INTEGER: the game is found afterwards with
    the result of the form; no prediction changes but in its raw points, and
    none of another game; every prediction of the game carries the raw
    points of the scoring rule for the new result; when some game of the
    round still lacks a result the round scores are left as they were, and
    otherwise the rows of the round are the rows of the ranking walk over
    the new raw points.  If a score does not fit, the write fails and the
    store is left as it was. *)
Theorem definir_resultado_efeito :
  forall (int_ : string -> option Z) (jogo_id : Z)
         (resultado placar1_str placar2_str : string) (placar1 placar2 : Z)
         (jogo : Jogo.t) (db : DB),
    resultado <> "" -> placar1_str <> "" -> placar2_str <> "" ->
    buscar_jogo jogo_id db = Some jogo ->
    int_ placar1_str = Some placar1 ->
    int_ placar2_str = Some placar2 ->
    let jogo' :=
      jogo_com_resultado jogo (Some resultado) (Some placar1)
        (Some placar2) in
    let semana := Jogo.semana jogo in
    let db' :=
      RotasCopy8.definir_resultado int_ (Some jogo_id) (Some resultado)
        (Some placar1_str) (Some placar2_str) db in
    (inteiro_sqlite placar1 = true -> inteiro_sqlite placar2 = true ->
     buscar_jogo jogo_id db' = Some jogo' /\
     participantes db' = participantes db /\
     Forall2 (so_pontuacao jogo') (palpites db) (palpites db') /\
     (forall p, In p (palpites db') -> Palpite.jogo_id p = jogo_id ->
                Palpite.pontuacao_recebida p =
                pontuacao_atual (is_prime_game jogo') resultado
                  placar1 placar2 p) /\
     (todos_jogos_semana_finalizados semana db' = false ->
      pontuacoes_rodada db' = pontuacoes_rodada db) /\
     (todos_jogos_semana_finalizados semana db' = true ->
      filter (da_semana semana) (pontuacoes_rodada db') =
      map (linha_rodada semana) (classificacao_da_rodada semana db'))) /\
    (inteiro_sqlite placar1 = false \/ inteiro_sqlite placar2 = false ->
     db' = db).
Proof.
  intros int_ jogo_id resultado p1s p2s p1 p2 jogo db Hr H1 H2 Hb Hi1 Hi2
         jogo' semana db'.
  split;
    [|intros Hc; subst db'; unfold RotasCopy8.definir_resultado;
      now apply (definir_resultado_estouro _ _ _ _ _ _ _ p1 p2)].
  intros Hc1 Hc2.
  subst db'. unfold RotasCopy8.definir_resultado.
  rewrite (definir_resultado_aceita _ _ _ _ _ _ _ _ _ _ _
             Hr H1 H2 Hb Hi1 Hi2 Hc1 Hc2).
  fold jogo' semana.
  pose proof (buscar_jogo_id _ _ _ Hb) as Hid.
  set (db1 := com_jogos db
                (substituir_primeira (tem_id jogo_id) jogo' (jogos db))).
  destruct (finalizado_calcular jogo' db1 resultado p1 p2
              eq_refl eq_refl eq_refl) as [H8 _].
  rewrite H8. simpl snd.
  set (db2 := pontuar_palpites jogo' resultado p1 p2 db1).
  assert (Hjogos : forall d, jogos d = jogos db2 ->
                             buscar_jogo jogo_id d = Some jogo').
  { intros d Hd. unfold buscar_jogo. rewrite Hd. subst db2 db1. simpl.
    apply (find_substituir_primeira _ _) with (j := jogo);
      [|exact Hb].
    unfold tem_id. subst jogo'. simpl. now apply Z.eqb_eq. }
  assert (Hpalpites : Forall2 (so_pontuacao jogo') (palpites db)
                        (palpites db2)).
  { subst db2. rewrite pontuar_palpites_map.
    exact (so_pontuacao_map jogo'
             (pontuacao_atual (is_prime_game jogo') resultado p1 p2)
             (palpites db)). }
  assert (Hpts : forall p, In p (palpites db2) ->
                           Palpite.jogo_id p = jogo_id ->
                           Palpite.pontuacao_recebida p =
                           pontuacao_atual (is_prime_game jogo') resultado
                             p1 p2 p).
  { intros p Hin Hp. apply (In_pontuar_palpites jogo' _ _ _ db1); [exact Hin|].
    subst jogo'. simpl. now rewrite Hid. }
  unfold recalcular_se_finalizada.
  destruct (todos_jogos_semana_finalizados semana db2) eqn:E.
  - rewrite (todos_finalizados_jogos semana db2 _
               (copy8_ranquear_jogos semana db2)), E.
    repeat split; try assumption; try reflexivity.
    + now apply Hjogos.
    + discriminate.
    + intros _. exact (copy8_linhas_da_semana semana db2).
  - rewrite E. repeat split; try assumption; try reflexivity.
    + now apply Hjogos.
    + discriminate.
Qed.

Lemma jogo_com_resultado_idem jogo r a b :
  jogo_com_resultado (jogo_com_resultado jogo r a b) r a b
  = jogo_com_resultado jogo r a b.
Proof. reflexivity. Qed.

Lemma com_jogos_mesmos db : com_jogos db (jogos db) = db.
Proof. now destruct db. Qed.

Lemma copy8_recalcular_com semana db :
  exists rs,
    recalcular_se_finalizada AppCopy8.calcular_pontos_f1_por_rodada semana db
    = com_pontuacoes_rodada db rs.
Proof.
  unfold recalcular_se_finalizada.
  destruct (todos_jogos_semana_finalizados semana db).
  - eexists. apply copy8_calcular_com.
  - exists (pontuacoes_rodada db). now destruct db.
Qed.

(** A form is refused, or fails at the write, or is accepted. *)
Lemma definir_resultado_casos (int_ : string -> option Z) jogo_id
    resultado placar1_str placar2_str db :
  (jogo_id = None \/
   vazio resultado = true \/ vazio placar1_str = true \/
   vazio placar2_str = true \/
   (exists id, jogo_id = Some id /\ buscar_jogo id db = None) \/
   (exists s, placar1_str = Some s /\ int_ s = None) \/
   (exists s, placar2_str = Some s /\ int_ s = None)) \/
  (exists s1 s2 p1 p2,
      placar1_str = Some s1 /\ placar2_str = Some s2 /\
      int_ s1 = Some p1 /\ int_ s2 = Some p2 /\
      (inteiro_sqlite p1 = false \/ inteiro_sqlite p2 = false)) \/
  (exists id r s1 s2 p1 p2 jogo,
      jogo_id = Some id /\ resultado = Some r /\
      placar1_str = Some s1 /\ placar2_str = Some s2 /\
      r <> "" /\ s1 <> "" /\ s2 <> "" /\
      buscar_jogo id db = Some jogo /\
      int_ s1 = Some p1 /\ int_ s2 = Some p2 /\
      inteiro_sqlite p1 = true /\ inteiro_sqlite p2 = true).
Proof.
  destruct jogo_id as [id|]; [|now left; left].
  destruct (vazio resultado) eqn:Vr; [left; tauto|].
  destruct (vazio placar1_str) eqn:V1; [left; tauto|].
  destruct (vazio placar2_str) eqn:V2; [left; tauto|].
  apply vazio_false in Vr as [r [-> Hr]].
  apply vazio_false in V1 as [s1 [-> H1]].
  apply vazio_false in V2 as [s2 [-> H2]].
  destruct (buscar_jogo id db) as [jogo|] eqn:Hb;
    [|left; do 4 right; left; now exists id].
  destruct (int_ s1) as [p1|] eqn:Hi1;
    [|left; do 5 right; left; now exists s1].
  destruct (int_ s2) as [p2|] eqn:Hi2;
    [|left; do 6 right; now exists s2].
  right.
  destruct (inteiro_sqlite p1) eqn:Hc1;
    [|left; exists s1, s2, p1, p2; tauto].
  destruct (inteiro_sqlite p2) eqn:Hc2;
    [|left; exists s1, s2, p1, p2; tauto].
  right. exists id, r, s1, s2, p1, p2, jogo. repeat split; assumption.
Qed.

(** X11. Submitting the same form to [definir_resultado] of
    [app copy 8.py] a second time changes nothing: the store after two
    submissions is the store after one, whether the form was accepted or
    not. *)
Theorem definir_resultado_idempotente :
  forall (int_ : string -> option Z) (jogo_id : option Z)
         (resultado placar1_str placar2_str : option string) (db : DB),
    let enviar :=
      RotasCopy8.definir_resultado int_ jogo_id resultado
        placar1_str placar2_str in
    enviar (enviar db) = enviar db.
Proof.
  intros int_ jogo_id resultado p1s p2s db enviar. subst enviar.
  unfold RotasCopy8.definir_resultado.
  destruct (definir_resultado_casos int_ jogo_id resultado p1s p2s db)
    as [Hrec|[(s1 & s2 & p1 & p2 & -> & -> & Hi1 & Hi2 & Hc)
             |(id & r & s1 & s2 & p1 & p2 & jogo & -> & -> & -> & -> &
               Er & E1 & E2 & Hb & Hi1 & Hi2 & Hc1 & Hc2)]].
  - rewrite !(definir_resultado_sem_efeito _ _ _ _ _ _ _ _ Hrec).
    reflexivity.
  - rewrite !(definir_resultado_estouro _ _ _ _ _ _ _ _ _ _ Hi1 Hi2 Hc).
    reflexivity.
  - rewrite (definir_resultado_aceita _ _ _ _ _ _ _ _ _ _ _
               Er E1 E2 Hb Hi1 Hi2 Hc1 Hc2).
    set (jogo' := jogo_com_resultado jogo (Some r) (Some p1) (Some p2)).
    set (js' := substituir_primeira (tem_id id) jogo' (jogos db)).
    assert (Hf : tem_id id jogo' = true).
    { unfold tem_id. subst jogo'. simpl. apply Z.eqb_eq.
      now apply (buscar_jogo_id _ db). }
    set (db2 := snd (AppCopy8.calcular_e_atualizar_pontuacoes_jogo jogo'
                       (com_jogos db js'))).
    assert (Hj2 : jogos db2 = js').
    { subst db2. now rewrite copy8_calcular_jogos. }
    destruct (copy8_recalcular_com (Jogo.semana jogo) db2) as [rs Hrs].
    assert (Hb' : buscar_jogo id
                    (recalcular_se_finalizada
                       AppCopy8.calcular_pontos_f1_por_rodada
                       (Jogo.semana jogo) db2) = Some jogo').
    { unfold buscar_jogo. rewrite copy8_recalcular_jogos, Hj2. subst js'.
      now apply (find_substituir_primeira _ _ Hf) with (j := jogo). }
    rewrite (definir_resultado_aceita _ _ _ _ _ _ _ _ _ _ _
               Er E1 E2 Hb' Hi1 Hi2 Hc1 Hc2).
    change (jogo_com_resultado jogo' (Some r) (Some p1) (Some p2))
      with jogo'.
    change (Jogo.semana jogo') with (Jogo.semana jogo).
    rewrite copy8_recalcular_jogos, Hj2.
    replace (substituir_primeira (tem_id id) jogo' js') with js'
      by (subst js'; symmetry;
          now apply substituir_primeira_idem).
    rewrite Hrs at 1.
    change (com_jogos (com_pontuacoes_rodada db2 rs) js')
      with (com_pontuacoes_rodada (com_jogos db2 js') rs).
    replace (com_jogos db2 js') with db2
      by (rewrite <- Hj2; symmetry; apply com_jogos_mesmos).
    rewrite copy8_calcular_com_pontuacoes.
    assert (Hidem : snd (AppCopy8.calcular_e_atualizar_pontuacoes_jogo jogo'
                           db2) = db2).
    { subst db2.
      destruct (calcular_idem jogo' (com_jogos db js')) as [H _].
      now rewrite H. }
    rewrite Hidem, <- Hrs. apply copy8_recalcular_idem.
Qed.

(** ** Re-ranking several rounds *)

Lemma Permutation_filter {A} (f : A -> bool) l l' :
  Permutation l l' -> Permutation (filter f l) (filter f l').
Proof.
  induction 1 as [|x l l' _ IH|x y l|l l' l'' _ IH1 _ IH2]; simpl.
  - constructor.
  - destruct (f x); [now constructor|exact IH].
  - destruct (f x), (f y); try reflexivity. apply perm_swap.
  - now transitivity (filter f l').
Qed.

Lemma filter_comm {A} (f g : A -> bool) l :
  filter f (filter g l) = filter g (filter f l).
Proof.
  induction l as [|x l IH]; simpl; [reflexivity|].
  destruct (f x) eqn:Ef, (g x) eqn:Eg; simpl; rewrite ?Ef, ?Eg, IH;
    reflexivity.
Qed.

Lemma filter_outra_semana semana semana' cs :
  semana <> semana' ->
  filter (fun r => negb (da_semana semana r)) (map (linha_rodada semana') cs)
  = map (linha_rodada semana') cs.
Proof.
  intros Hne. induction cs as [|c cs IH]; simpl; [reflexivity|].
  unfold da_semana at 1. simpl.
  destruct (Z.eqb_spec semana' semana) as [Heq|_]; [now elim Hne|].
  simpl. now f_equal.
Qed.

Lemma mesma_base_refl db : mesma_base db db.
Proof. repeat split; reflexivity. Qed.

Lemma mesma_base_trans db1 db2 db3 :
  mesma_base db1 db2 -> mesma_base db2 db3 -> mesma_base db1 db3.
Proof.
  intros (Hp & Hj & Hl & Hr) (Hp' & Hj' & Hl' & Hr').
  repeat split; try congruence. now transitivity (pontuacoes_rodada db2).
Qed.

(** The aggregate and the walk read participants, games and predictions
    only. *)
Lemma classificacao_da_rodada_base semana db1 db2 :
  mesma_base db1 db2 ->
  classificacao_da_rodada semana db1 = classificacao_da_rodada semana db2.
Proof.
  intros (Hp & Hj & Hl & _).
  unfold classificacao_da_rodada, pontuacoes_raw_por_participante, grupos,
    pontos_do_participante.
  now rewrite Hp, Hj, Hl.
Qed.

Lemma copy8_ranquear_base semana db1 db2 :
  mesma_base db1 db2 ->
  mesma_base (AppCopy8.calcular_pontos_f1_por_rodada semana db1)
             (AppCopy8.calcular_pontos_f1_por_rodada semana db2).
Proof.
  intros H. pose proof H as (Hp & Hj & Hl & Hr).
  rewrite !copy8_calcular_com, (classificacao_da_rodada_base _ _ _ H).
  repeat split; simpl; try assumption.
  apply Permutation_app_tail. now apply Permutation_filter.
Qed.

Lemma copy8_recalcular_base semana db1 db2 :
  mesma_base db1 db2 ->
  mesma_base
    (recalcular_se_finalizada AppCopy8.calcular_pontos_f1_por_rodada
       semana db1)
    (recalcular_se_finalizada AppCopy8.calcular_pontos_f1_por_rodada
       semana db2).
Proof.
  intros H. unfold recalcular_se_finalizada.
  destruct H as (Hp & Hj & Hl & Hr).
  rewrite (todos_finalizados_jogos semana db2 db1 Hj).
  destruct (todos_jogos_semana_finalizados semana db2).
  - apply copy8_ranquear_base. now repeat split.
  - now repeat split.
Qed.

(** Two rounds can be ranked in either order. *)
Lemma copy8_ranquear_troca semana1 semana2 db :
  mesma_base
    (AppCopy8.calcular_pontos_f1_por_rodada semana1
       (AppCopy8.calcular_pontos_f1_por_rodada semana2 db))
    (AppCopy8.calcular_pontos_f1_por_rodada semana2
       (AppCopy8.calcular_pontos_f1_por_rodada semana1 db)).
Proof.
  destruct (Z.eq_dec semana1 semana2) as [->|Hne];
    [apply mesma_base_refl|].
  rewrite !copy8_calcular_com, !classificacao_da_rodada_com.
  repeat split.
  cbn [pontuacoes_rodada com_pontuacoes_rodada].
  rewrite !filter_app.
  rewrite (filter_outra_semana semana1 semana2) by exact Hne.
  rewrite (filter_outra_semana semana2 semana1) by (now apply not_eq_sym).
  rewrite (filter_comm (fun r => negb (da_semana semana1 r))).
  rewrite <- !app_assoc. apply Permutation_app_head.
  apply Permutation_app_comm.
Qed.

Lemma copy8_recalcular_troca semana1 semana2 db :
  mesma_base
    (recalcular_se_finalizada AppCopy8.calcular_pontos_f1_por_rodada semana1
       (recalcular_se_finalizada AppCopy8.calcular_pontos_f1_por_rodada
          semana2 db))
    (recalcular_se_finalizada AppCopy8.calcular_pontos_f1_por_rodada semana2
       (recalcular_se_finalizada AppCopy8.calcular_pontos_f1_por_rodada
          semana1 db)).
Proof.
  unfold recalcular_se_finalizada at 1 3.
  rewrite !(todos_finalizados_jogos _ db _ (copy8_recalcular_jogos _ db)).
  unfold recalcular_se_finalizada.
  destruct (todos_jogos_semana_finalizados semana1 db),
    (todos_jogos_semana_finalizados semana2 db);
    try apply mesma_base_refl.
  apply copy8_ranquear_troca.
Qed.

Lemma copy8_recalcular_rodadas_base semanas db1 db2 :
  mesma_base db1 db2 ->
  mesma_base (RotasCopy8.recalcular_rodadas semanas db1)
             (RotasCopy8.recalcular_rodadas semanas db2).
Proof.
  unfold RotasCopy8.recalcular_rodadas, recalcular_rodadas.
  revert db1 db2. induction semanas as [|s semanas IH]; intros db1 db2 H;
    simpl; [exact H|].
  apply IH. now apply copy8_recalcular_base.
Qed.

(** X12. The second loop of [importar_resultados_json_route] in
    [app copy 8.py] walks a set of rounds: whatever the order in which the
    rounds are taken, the store ends with the same participants, games and
    predictions and with the same round scores, up to the order of the
    rows. *)
Theorem recalcular_rodadas_em_qualquer_ordem :
  forall (semanas1 semanas2 : list Z) (db : DB),
    Permutation semanas1 semanas2 ->
    mesma_base (RotasCopy8.recalcular_rodadas semanas1 db)
               (RotasCopy8.recalcular_rodadas semanas2 db).
Proof.
  intros semanas1 semanas2 db H. revert db.
  induction H as [|s l l' _ IH|s1 s2 l|l l' l'' _ IH1 _ IH2]; intros db.
  - apply mesma_base_refl.
  - exact (IH _).
  - exact (copy8_recalcular_rodadas_base l _ _
             (copy8_recalcular_troca s1 s2 db)).
  - exact (mesma_base_trans _ _ _ (IH1 db) (IH2 db)).
Qed.

(** ** [importar_resultados_json_route] *)

Lemma importar_resultado_ignorado calcular game_result db semanas :
  ignorado db game_result ->
  importar_resultado calcular game_result (db, semanas)
  = Some (db, semanas).
Proof.
  unfold ignorado, importar_resultado.
  destruct (rj_id_externo game_result) as [e|]; [|reflexivity].
  intros [->|H]; [reflexivity|].
  destruct (String.eqb e ""); [reflexivity|]. now rewrite H.
Qed.

(** X13. In either file, a results file whose records all lack an
    [id_externo], carry an empty one or name a game the store does not have
    leaves the store as it is: nothing is scored and no round is ranked. *)
Theorem importar_resultados_ignorados :
  forall (calcular : Jogo.t -> DB -> bool * DB) (ranquear : Z -> DB -> DB)
         (results_data : list ResultadoJson) (db : DB),
    Forall (ignorado db) results_data ->
    importar_resultados_json_route calcular ranquear results_data db = db.
Proof.
  intros calcular ranquear results_data db H.
  unfold importar_resultados_json_route.
  assert (E : importar_resultados calcular results_data (db, [])
              = Some (db, [])).
  { generalize (@nil Z) as semanas.
    induction H as [|r rs Hr _ IH]; intros semanas;
      cbn [importar_resultados]; [reflexivity|].
    rewrite (importar_resultado_ignorado _ _ _ _ Hr). apply IH. }
  rewrite E. reflexivity.
Qed.

Lemma todos_finalizados_false semana db jogo :
  In jogo (jogos db) -> Jogo.semana jogo = semana ->
  sem_resultado jogo = true ->
  todos_jogos_semana_finalizados semana db = false.
Proof.
  intros Hin Hs Hsem. apply not_true_is_false. intros Ht.
  unfold todos_jogos_semana_finalizados in Ht.
  assert (Hj : In jogo (jogos_da_semana semana db))
    by (now apply In_jogos_da_semana).
  destruct (jogos_da_semana semana db) as [|j0 js] eqn:E; [destruct Hj|].
  rewrite <- E in Ht.
  apply todos_com_resultado_iff with (j := jogo) in Ht;
    [|rewrite E; exact Hj].
  apply sem_resultado_false_iff in Ht. congruence.
Qed.

Lemma sem_resultado_jogo_com_resultado jogo r a b :
  r = None \/ a = None \/ b = None ->
  sem_resultado (jogo_com_resultado jogo r a b) = true.
Proof.
  unfold sem_resultado. simpl.
  intros [ -> | [ -> | -> ] ]; [reflexivity| |]; destruct r; try reflexivity;
    destruct a; reflexivity.
Qed.

Lemma zerar_jogo_com_resultado jogo r a b p :
  zerar (jogo_com_resultado jogo r a b) p = zerar jogo p.
Proof. reflexivity. Qed.

(** A record with a score that SQLite cannot hold ends the import: the
    rollback leaves the store of before the request. *)
Lemma importar_resultado_estouro calcular ranquear external_id game_result
    jogo db :
  external_id <> "" ->
  rj_id_externo game_result = Some external_id ->
  find (tem_id_externo external_id) (jogos db) = Some jogo ->
  coluna_sqlite (rj_placar_time1_final game_result) = false \/
  coluna_sqlite (rj_placar_time2_final game_result) = false ->
  importar_resultados_json_route calcular ranquear [game_result] db = db.
Proof.
  intros Hne Hext Hfind Hc. apply String.eqb_neq in Hne.
  unfold importar_resultados_json_route. cbn [importar_resultados].
  unfold importar_resultado. rewrite Hext, Hne, Hfind.
  destruct Hc as [-> | ->]; [reflexivity|].
  now rewrite andb_false_r.
Qed.

(** X14. A results file with one record that names a game of the store and
    lacks the outcome or a score.  If the scores the record does carry fit a
    SQLite INTEGER, the record clears the result of that game: in both files
    the round scores stay as they were, because the round is no longer
    complete; [app copy 8.py] sets the raw points of the predictions of the
    game to 0, [app.py] leaves every prediction with the raw points of the
    old result.  If a score does not fit, the write fails and both files
    leave the store as it was. *)
Theorem importar_resultado_apagado :
  forall (external_id : string) (game_result : ResultadoJson)
         (jogo : Jogo.t) (db : DB),
    external_id <> "" ->
    rj_id_externo game_result = Some external_id ->
    find (tem_id_externo external_id) (jogos db) = Some jogo ->
    rj_resultado game_result = None \/
    rj_placar_time1_final game_result = None \/
    rj_placar_time2_final game_result = None ->
    let jogo' :=
      jogo_com_resultado jogo (rj_resultado game_result)
        (rj_placar_time1_final game_result)
        (rj_placar_time2_final game_result) in
    let db8 := RotasCopy8.importar_resultados_json_route [game_result] db in
    let dbA := RotasApp.importar_resultados_json_route [game_result] db in
    (coluna_sqlite (rj_placar_time1_final game_result) = true ->
     coluna_sqlite (rj_placar_time2_final game_result) = true ->
     (jogos db8 =
        substituir_primeira (tem_id_externo external_id) jogo' (jogos db)
      /\ jogos dbA = jogos db8 /\ In jogo' (jogos db8)) /\
     (palpites db8 = map (zerar jogo) (palpites db) /\
      palpites dbA = palpites db) /\
     (pontuacoes_rodada db8 = pontuacoes_rodada db /\
      pontuacoes_rodada dbA = pontuacoes_rodada db)) /\
    (coluna_sqlite (rj_placar_time1_final game_result) = false \/
     coluna_sqlite (rj_placar_time2_final game_result) = false ->
     db8 = db /\ dbA = db).
Proof.
  intros ext r jogo db Hne Hext Hfind Hnone jogo' db8 dbA.
  split;
    [|intros Hc; split; subst db8 dbA;
      unfold RotasCopy8.importar_resultados_json_route,
        RotasApp.importar_resultados_json_route;
      now apply (importar_resultado_estouro _ _ ext _ jogo)].
  intros Hc1 Hc2.
  assert (Hext' : tem_id_externo ext jogo' = true).
  { apply find_some in Hfind as [_ Hf]. exact Hf. }
  pose proof (In_substituir_primeira _ jogo' _ _ Hfind) as Hin.
  pose proof (sem_resultado_jogo_com_resultado jogo _ _ _ Hnone) as Hsem.
  fold jogo' in Hsem.
  assert (Hnone' : Jogo.resultado jogo' = None \/
                   Jogo.placar_time1_final jogo' = None \/
                   Jogo.placar_time2_final jogo' = None) by exact Hnone.
  set (db1 := com_jogos db
                (substituir_primeira (tem_id_externo ext) jogo'
                   (jogos db))).
  apply String.eqb_neq in Hne.
  assert (E8 : db8 =
               com_palpites db1 (map (zerar jogo) (palpites db))).
  { subst db8. unfold RotasCopy8.importar_resultados_json_route,
      importar_resultados_json_route. cbn [importar_resultados].
    unfold importar_resultado. rewrite Hext, Hne, Hfind, Hc1, Hc2.
    fold jogo' db1.
    rewrite (sem_resultado_calcular_copy8 jogo' db1 Hnone').
    simpl. unfold recalcular_se_finalizada.
    rewrite (todos_finalizados_false _ _ jogo');
      [reflexivity|exact Hin|reflexivity|exact Hsem]. }
  assert (EA : dbA = db1).
  { subst dbA. unfold RotasApp.importar_resultados_json_route,
      importar_resultados_json_route. cbn [importar_resultados].
    unfold importar_resultado. rewrite Hext, Hne, Hfind, Hc1, Hc2.
    fold jogo' db1.
    rewrite (sem_resultado_calcular_app jogo' db1 Hnone').
    simpl. unfold recalcular_se_finalizada.
    rewrite (todos_finalizados_false _ _ jogo');
      [reflexivity|exact Hin|reflexivity|exact Hsem]. }
  rewrite E8, EA. repeat split; try reflexivity. exact Hin.
Qed.

(** ** The delete branch of [gerenciar_jogos] *)

Lemma In_remover_primeiro_jogo f js j :
  In j (remover_primeiro_jogo f js) -> In j js.
Proof.
  induction js as [|j0 js IH]; simpl; [tauto|].
  destruct (f j0); [tauto|]. intros [->|H]; [now left|right; now apply IH].
Qed.

Lemma remover_primeiro_jogo_unico jogo_id js :
  NoDup (map Jogo.id js) ->
  forall j, In j (remover_primeiro_jogo (tem_id jogo_id) js) <->
            In j js /\ Jogo.id j <> jogo_id.
Proof.
  induction js as [|j0 js IH]; simpl; intros Hnd j; [tauto|].
  inversion Hnd as [|x xs Hnotin Hnd']; subst.
  unfold tem_id at 1.
  destruct (Z.eqb_spec (Jogo.id j0) jogo_id) as [Heq|Hneq].
  - split.
    + intros Hin. split; [now right|]. intros Hid. apply Hnotin.
      rewrite Heq, <- Hid. now apply in_map.
    + intros [[->|Hin] Hid]; [contradiction|exact Hin].
  - simpl. rewrite (IH Hnd'). split.
    + intros [->|[Hin Hid]]; [split; [now left|exact Hneq]|].
      split; [now right|exact Hid].
    + intros [[->|Hin] Hid]; [now left|right; now split].
Qed.

(** X15. Deleting a game through [gerenciar_jogos] of [app copy 8.py]:
    an identifier no game has changes nothing; otherwise exactly the
    predictions of the game are deleted with it and, under the primary key
    of [Jogo], exactly that game; and when the round is left without games
    its round scores stay in the store as they were, since an empty round is
    never ranked again. *)
Theorem gerenciar_jogos_excluir_efeito :
  forall (jogo_id : Z) (db : DB),
    let db' := RotasCopy8.gerenciar_jogos_excluir jogo_id db in
    (buscar_jogo jogo_id db = None -> db' = db) /\
    (forall jogo,
        buscar_jogo jogo_id db = Some jogo ->
        participantes db' = participantes db /\
        palpites db' =
          filter (fun p => negb (Palpite.jogo_id p =? jogo_id)) (palpites db)
        /\
        (forall p, In p (palpites db') <->
                   In p (palpites db) /\ Palpite.jogo_id p <> jogo_id) /\
        (NoDup (map Jogo.id (jogos db)) ->
         forall j, In j (jogos db') <->
                   In j (jogos db) /\ Jogo.id j <> jogo_id) /\
        ((forall j, In j (jogos db') -> Jogo.semana j <> Jogo.semana jogo) ->
         pontuacoes_rodada db' = pontuacoes_rodada db)).
Proof.
  intros jogo_id db db'. subst db'.
  unfold RotasCopy8.gerenciar_jogos_excluir, gerenciar_jogos_excluir.
  split; [intros H; now rewrite H|].
  intros jogo Hb. rewrite Hb.
  pose proof (buscar_jogo_id _ _ _ Hb) as Hid. rewrite Hid.
  set (db1 := mkDB (participantes db)
                (remover_primeiro_jogo (tem_id jogo_id) (jogos db))
                (filter (fun p => negb (Palpite.jogo_id p =? jogo_id))
                        (palpites db))
                (pontuacoes_rodada db)).
  destruct (copy8_recalcular_com (Jogo.semana jogo) db1) as [rs Hrs].
  assert (Hpal : palpites
                   (recalcular_se_finalizada
                      AppCopy8.calcular_pontos_f1_por_rodada
                      (Jogo.semana jogo) db1)
                 = filter (fun p => negb (Palpite.jogo_id p =? jogo_id))
                          (palpites db))
    by now rewrite Hrs.
  split; [now rewrite Hrs|]. split; [exact Hpal|]. split; [|split].
  - intros p. rewrite Hpal, filter_In, negb_true_iff, Z.eqb_neq.
    reflexivity.
  - intros Hnd j. rewrite copy8_recalcular_jogos. subst db1. simpl.
    now apply remover_primeiro_jogo_unico.
  - intros Hvazia. rewrite copy8_recalcular_jogos in Hvazia.
    unfold recalcular_se_finalizada.
    assert (E : todos_jogos_semana_finalizados (Jogo.semana jogo) db1
                = false).
    { unfold todos_jogos_semana_finalizados.
      destruct (jogos_da_semana (Jogo.semana jogo) db1) as [|j0 js] eqn:Ej;
        [reflexivity|].
      assert (Hj0 : In j0 (jogos_da_semana (Jogo.semana jogo) db1))
        by (rewrite Ej; now left).
      apply In_jogos_da_semana in Hj0 as [Hin Hs].
      now elim (Hvazia j0 Hin). }
    now rewrite E.
Qed.

(** ** [get_config] and [set_config] *)

Section SubstituirOutras.

Context {A : Type}.
Variables f g : A -> bool.
Variable novo : A.
Hypothesis disjuntos : forall x, f x = true -> g x = false.
Hypothesis g_novo : g novo = false.

(** Replacing the first row of one filter does not change what another,
    disjoint filter finds. *)
Lemma find_substituir_primeira_outra l :
  find g (substituir_primeira f novo l) = find g l.
Proof.
  induction l as [|x l IH]; simpl; [reflexivity|].
  destruct (f x) eqn:E; simpl.
  - now rewrite g_novo, (disjuntos x E).
  - now rewrite IH.
Qed.

Lemma In_substituir_primeira_outra l x :
  g x = true -> In x (substituir_primeira f novo l) <-> In x l.
Proof.
  intros Hx. induction l as [|y l IH]; simpl; [reflexivity|].
  destruct (f y) eqn:E; simpl.
  - split; (intros [<-|H]; [|now right]).
    + congruence.
    + rewrite (disjuntos _ E) in Hx. discriminate.
  - now rewrite IH.
Qed.

End SubstituirOutras.

Lemma find_app_novo {A} (f : A -> bool) l x :
  find f (l ++ [x]) =
  match find f l with
  | Some y => Some y
  | None => if f x then Some x else None
  end.
Proof.
  induction l as [|y l IH]; simpl; [reflexivity|].
  destruct (f y); [reflexivity|exact IH].
Qed.

Lemma substituir_primeira_app_novo {A} (f : A -> bool) novo l x :
  find f l = None -> f x = true ->
  substituir_primeira f novo (l ++ [x]) = l ++ [novo].
Proof.
  intros Hnone Hx. induction l as [|y l IH]; simpl in *.
  - now rewrite Hx.
  - destruct (f y); [discriminate|]. f_equal. now apply IH.
Qed.

Lemma tem_chave_iff key c :
  tem_chave key c = true <-> Configuracao.chave c = key.
Proof. apply String.eqb_eq. Qed.

Lemma tem_chave_outra key key' c :
  key' <> key -> tem_chave key c = true -> tem_chave key' c = false.
Proof.
  intros Hne H. apply tem_chave_iff in H. unfold tem_chave.
  apply String.eqb_neq. congruence.
Qed.

Lemma map_chave_substituir key novo config :
  Configuracao.chave novo = key ->
  map Configuracao.chave (substituir_primeira (tem_chave key) novo config)
  = map Configuracao.chave config.
Proof.
  intros Hn. induction config as [|c config IH]; simpl; [reflexivity|].
  destruct (tem_chave key c) eqn:E; simpl; [|now f_equal].
  apply tem_chave_iff in E. now rewrite Hn, E.
Qed.

Lemma get_config_set_config key value default_value config :
  get_config key default_value (set_config key value config) = Some value.
Proof.
  unfold get_config, set_config.
  destruct (find (tem_chave key) config) as [c|] eqn:F.
  - assert (Hk : tem_chave key (Configuracao.mk (Configuracao.chave c) value)
                 = true).
    { apply find_some in F as [_ F]. exact F. }
    now rewrite (find_substituir_primeira _ _ Hk _ _ F).
  - rewrite find_app_novo, F. unfold tem_chave at 1. simpl.
    now rewrite String.eqb_refl.
Qed.

Lemma get_config_set_config_outra key key' value default_value config :
  key' <> key ->
  get_config key' default_value (set_config key value config)
  = get_config key' default_value config.
Proof.
  intros Hne. unfold get_config, set_config.
  destruct (find (tem_chave key) config) as [c|] eqn:F.
  - rewrite find_substituir_primeira_outra; [reflexivity| |].
    + intros x. now apply tem_chave_outra.
    + apply find_some in F as [_ F]. now apply (tem_chave_outra key).
  - rewrite find_app_novo.
    destruct (find (tem_chave key') config); [reflexivity|].
    unfold tem_chave. simpl.
    apply not_eq_sym, String.eqb_neq in Hne. now rewrite Hne.
Qed.

(** X16. The configuration table behaves as a map: [get_config] returns
    what the last [set_config] of the key wrote, whatever the default; a
    [set_config] of another key does not change it; writing a key twice is
    writing it once with the second value; and a table without a repeated
    key stays so. *)
Theorem set_config_get_config :
  forall (key value : string) (config : list Configuracao.t),
    (forall default_value,
        get_config key default_value (set_config key value config)
        = Some value) /\
    (forall key' default_value,
        key' <> key ->
        get_config key' default_value (set_config key value config)
        = get_config key' default_value config) /\
    (forall value',
        set_config key value' (set_config key value config)
        = set_config key value' config) /\
    (NoDup (map Configuracao.chave config) ->
     NoDup (map Configuracao.chave (set_config key value config))).
Proof.
  intros key value config. split; [|split; [|split]].
  - intros d. apply get_config_set_config.
  - intros key' d Hne. now apply get_config_set_config_outra.
  - intros value'. unfold set_config at 1 2.
    destruct (find (tem_chave key) config) as [c|] eqn:F.
    + assert (Hk : forall v,
                 tem_chave key (Configuracao.mk (Configuracao.chave c) v)
                 = true).
      { intros v. apply find_some in F as [_ F]. exact F. }
      rewrite (find_substituir_primeira _ _ (Hk value) _ _ F). simpl.
      unfold set_config. rewrite F. clear F.
      induction config as [|x config IH]; simpl; [reflexivity|].
      destruct (tem_chave key x) eqn:E; simpl.
      * now rewrite (Hk value).
      * rewrite E. now f_equal.
    + rewrite find_app_novo, F. unfold tem_chave at 1. simpl.
      rewrite String.eqb_refl. unfold set_config. rewrite F. simpl.
      apply substituir_primeira_app_novo; [exact F|].
      unfold tem_chave. simpl. apply String.eqb_refl.
  - intros Hnd. unfold set_config.
    destruct (find (tem_chave key) config) as [c|] eqn:F.
    + rewrite map_chave_substituir; [exact Hnd|].
      apply find_some in F as [_ F]. now apply tem_chave_iff.
    + rewrite map_app. simpl.
      apply (Permutation_NoDup (l := key :: map Configuracao.chave config)).
      * apply Permutation_cons_append.
      * constructor; [|exact Hnd]. intros Hin.
        apply in_map_iff in Hin as [c [Hc Hin]].
        pose proof (find_none _ _ F _ Hin) as Hf.
        apply tem_chave_iff in Hc. congruence.
Qed.

(** ** The round [home] displays *)

Lemma primeiro_semana_asc_spec js :
  match primeiro_semana_asc js with
  | None => js = []
  | Some m =>
      In m js /\ forall j, In j js -> Jogo.semana m <= Jogo.semana j
  end.
Proof.
  induction js as [|j0 js IH]; simpl; [reflexivity|].
  destruct (primeiro_semana_asc js) as [m|].
  - destruct IH as [Hin Hmin].
    destruct (Z.leb_spec (Jogo.semana j0) (Jogo.semana m)) as [Hle|Hgt].
    + split; [now left|]. intros j [<-|Hj]; [lia|].
      specialize (Hmin j Hj). lia.
    + split; [now right|]. intros j [<-|Hj]; [lia|now apply Hmin].
  - subst js. split; [now left|]. intros j [<-|[]]. lia.
Qed.

Lemma primeiro_semana_desc_spec js :
  match primeiro_semana_desc js with
  | None => js = []
  | Some m =>
      In m js /\ forall j, In j js -> Jogo.semana j <= Jogo.semana m
  end.
Proof.
  induction js as [|j0 js IH]; simpl; [reflexivity|].
  destruct (primeiro_semana_desc js) as [m|].
  - destruct IH as [Hin Hmax].
    destruct (Z.leb_spec (Jogo.semana m) (Jogo.semana j0)) as [Hle|Hgt].
    + split; [now left|]. intros j [<-|Hj]; [lia|].
      specialize (Hmax j Hj). lia.
    + split; [now right|]. intros j [<-|Hj]; [lia|now apply Hmax].
  - subst js. split; [now left|]. intros j [<-|[]]. lia.
Qed.

Lemma todos_finalizados_true semana db :
  (exists j, In j (jogos db) /\ Jogo.semana j = semana) ->
  (forall j, In j (jogos db) -> Jogo.semana j = semana ->
             sem_resultado j = false) ->
  todos_jogos_semana_finalizados semana db = true.
Proof.
  intros [j0 [Hin0 Hs0]] Hall. unfold todos_jogos_semana_finalizados.
  assert (Hj0 : In j0 (jogos_da_semana semana db))
    by (now apply In_jogos_da_semana).
  destruct (jogos_da_semana semana db) as [|j1 js] eqn:E; [destruct Hj0|].
  rewrite <- E. apply todos_com_resultado_iff. intros j Hj.
  apply In_jogos_da_semana in Hj as [Hin Hs].
  apply sem_resultado_false_iff. now apply Hall.
Qed.

Lemma semana_automatica_casos db :
  let s := semana_automatica db in
  ((exists j, In j (jogos db) /\ sem_resultado j = true) ->
   (exists j, In j (jogos db) /\ sem_resultado j = true /\
              Jogo.semana j = s) /\
   (forall j, In j (jogos db) -> sem_resultado j = true ->
              s <= Jogo.semana j)) /\
  ((forall j, In j (jogos db) -> sem_resultado j = false) ->
   jogos db <> [] ->
   (exists j, In j (jogos db) /\ Jogo.semana j = s) /\
   (forall j, In j (jogos db) -> Jogo.semana j <= s)) /\
  (jogos db = [] -> s = 1).
Proof.
  intros s. subst s. unfold semana_automatica.
  pose proof (primeiro_semana_asc_spec (filter sem_resultado (jogos db)))
    as Hasc.
  pose proof (primeiro_semana_desc_spec (jogos db)) as Hdesc.
  destruct (primeiro_semana_asc (filter sem_resultado (jogos db)))
    as [m|] eqn:Em.
  - destruct Hasc as [Hm Hmin]. apply filter_In in Hm as [Hm Hsem].
    split; [|split].
    + intros _. split; [now exists m|].
      intros j Hj Hs. apply Hmin. now apply filter_In.
    + intros Hall. rewrite (Hall m Hm) in Hsem. discriminate.
    + intros Hvazio. rewrite Hvazio in Hm. destruct Hm.
  - assert (Hnone : forall j, In j (jogos db) -> sem_resultado j = false).
    { intros j Hj. destruct (sem_resultado j) eqn:E; [|reflexivity].
      assert (Hf : In j (filter sem_resultado (jogos db)))
        by (now apply filter_In).
      rewrite Hasc in Hf. destruct Hf. }
    split; [|split].
    + intros [j [Hj Hs]]. rewrite (Hnone j Hj) in Hs. discriminate.
    + intros _ Hne.
      destruct (primeiro_semana_desc (jogos db)) as [m|];
        [|contradiction].
      destruct Hdesc as [Hm Hmax]. split; [now exists m|exact Hmax].
    + intros Hvazio. rewrite Hvazio. reflexivity.
Qed.

(** X17. Without a usable override (no configuration row, an empty value,
    or a value that is not a number), [home] of [app copy 8.py] displays:
    when some game lacks a result, a round with such a game that is
    therefore not complete, every earlier round with games being complete;
    when every game has a result, the last round that has games; and round 1
    when there is no game. *)
Theorem semana_a_exibir_automatica :
  forall (config : list Configuracao.t) (db : DB),
    get_config chave_da_semana None config = None \/
    (exists v, get_config chave_da_semana None config = Some v /\
               (v = "" \/ isdigit v = false)) ->
    let s := semana_a_exibir config db in
    ((exists j, In j (jogos db) /\ sem_resultado j = true) ->
     (exists j, In j (jogos db) /\ sem_resultado j = true /\
                Jogo.semana j = s) /\
     todos_jogos_semana_finalizados s db = false /\
     (forall s', s' < s ->
                 (exists j, In j (jogos db) /\ Jogo.semana j = s') ->
                 todos_jogos_semana_finalizados s' db = true)) /\
    ((forall j, In j (jogos db) -> sem_resultado j = false) ->
     jogos db <> [] ->
     (exists j, In j (jogos db) /\ Jogo.semana j = s) /\
     (forall j, In j (jogos db) -> Jogo.semana j <= s)) /\
    (jogos db = [] -> s = 1).
Proof.
  intros config db Hcfg s.
  assert (Hs : s = semana_automatica db).
  { subst s. unfold semana_a_exibir.
    destruct Hcfg as [->|[v [-> [->|Hd]]]]; try reflexivity.
    rewrite Hd. now rewrite andb_false_r. }
  rewrite Hs. clear Hs s Hcfg.
  destruct (semana_automatica_casos db) as [Ha [Hb Hc]].
  split; [|split; [exact Hb|exact Hc]].
  intros Hex. destruct (Ha Hex) as [[j [Hj [Hsem Hsj]]] Hmin].
  split; [now exists j|]. split.
  - now apply (todos_finalizados_false _ _ j).
  - intros s' Hlt Hgames. apply todos_finalizados_true; [exact Hgames|].
    intros j' Hj' Hs'. destruct (sem_resultado j') eqn:E; [|reflexivity].
    specialize (Hmin j' Hj' E). lia.
Qed.

(** ** [admin_config] *)






(** ** [palpitar] *)

(** X19. In either file, [palpitar] leaves the store as it is when a form
    field is missing or empty, when no game has the identifier, when the
    game has already started, or when a score is not an integer. *)
Theorem palpitar_recusa :
  forall (int_ : string -> option Z) (ja_comecou : Jogo.t -> bool)
         (participante_id : Z) (jogo_id : option Z)
         (escolha placar1_str placar2_str : option string) (db : DB),
    jogo_id = None \/
    vazio escolha = true \/ vazio placar1_str = true \/
    vazio placar2_str = true \/
    (exists id, jogo_id = Some id /\ buscar_jogo id db = None) \/
    (exists id jogo, jogo_id = Some id /\ buscar_jogo id db = Some jogo /\
                     ja_comecou jogo = true) \/
    (exists s, placar1_str = Some s /\ int_ s = None) \/
    (exists s, placar2_str = Some s /\ int_ s = None) ->
    palpitar int_ ja_comecou participante_id jogo_id escolha
      placar1_str placar2_str db = db.
Proof.
  intros int_ ja_comecou pid jogo_id escolha p1 p2 db H.
  unfold palpitar.
  destruct jogo_id as [id|]; [|reflexivity].
  destruct escolha as [e|]; [|reflexivity].
  destruct p1 as [s1|]; [|reflexivity].
  destruct p2 as [s2|]; [|reflexivity].
  simpl in H.
  destruct (String.eqb e "") eqn:Ee; [reflexivity|].
  destruct (String.eqb s1 "") eqn:E1; [reflexivity|].
  destruct (String.eqb s2 "") eqn:E2; [reflexivity|]. simpl.
  destruct H as [H|[H|[H|[H|[H|[H|[H|H]]]]]]]; try discriminate.
  - destruct H as [id' [[= <-] Hb]]. now rewrite Hb.
  - destruct H as [id' [jogo [[= <-] [Hb Hj]]]]. now rewrite Hb, Hj.
  - destruct H as [s [[= <-] Hi]].
    destruct (buscar_jogo id db) as [jogo|]; [|reflexivity].
    destruct (ja_comecou jogo); [reflexivity|]. now rewrite Hi.
  - destruct H as [s [[= <-] Hi]].
    destruct (buscar_jogo id db) as [jogo|]; [|reflexivity].
    destruct (ja_comecou jogo); [reflexivity|]. rewrite Hi.
    now destruct (int_ s1).
Qed.

Lemma do_participante_no_jogo_iff participante_id jogo_id p :
  do_participante_no_jogo participante_id jogo_id p = true <->
  chave_palpite p = (participante_id, jogo_id).
Proof.
  unfold do_participante_no_jogo, chave_palpite.
  rewrite andb_true_iff, !Z.eqb_eq. split.
  - intros [-> ->]. reflexivity.
  - intros H. now inversion H.
Qed.

Section SubstituirChave.

Context {A K : Type}.
Variable f : A -> bool.
Variable k : A -> K.
Variable novo : A.
Hypothesis f_novo : f novo = true.
Hypothesis f_chave : forall x, f x = true -> k x = k novo.

Lemma map_substituir_primeira l :
  map k (substituir_primeira f novo l) = map k l.
Proof.
  induction l as [|x l IH]; simpl; [reflexivity|].
  destruct (f x) eqn:E; simpl; [|now f_equal].
  now rewrite (f_chave x E).
Qed.

Lemma In_substituir_primeira_fora l x :
  f x = false -> In x (substituir_primeira f novo l) <-> In x l.
Proof.
  intros Hx. induction l as [|y l IH]; simpl; [reflexivity|].
  destruct (f y) eqn:E; simpl; [|now rewrite IH].
  split; (intros [<-|H]; [congruence|now right]).
Qed.

End SubstituirChave.

(** X20. When the form sent to [palpitar] is complete (all fields filled,
    the game exists and has not started, both scores are integers).  If both
    scores fit a SQLite INTEGER, of any sign: the prediction of the
    participant for the game is found afterwards with the choice and the
    scores of the form, with 0 raw points when it is new and with the raw
    points it had when it replaces an earlier one; every prediction of
    another participant or game is as before; the other tables are
    untouched; and a table with at most one prediction per participant and
    game stays so.  If a score does not fit, the commit fails and the store
    is left as it was. *)
Theorem palpitar_aceita :
  forall (int_ : string -> option Z) (ja_comecou : Jogo.t -> bool)
         (participante_id jogo_id : Z)
         (escolha placar1_str placar2_str : string) (placar1 placar2 : Z)
         (jogo : Jogo.t) (db : DB),
    escolha <> "" -> placar1_str <> "" -> placar2_str <> "" ->
    buscar_jogo jogo_id db = Some jogo ->
    ja_comecou jogo = false ->
    int_ placar1_str = Some placar1 ->
    int_ placar2_str = Some placar2 ->
    let db' :=
      palpitar int_ ja_comecou participante_id (Some jogo_id)
        (Some escolha) (Some placar1_str) (Some placar2_str) db in
    let pontos :=
      match find (do_participante_no_jogo participante_id jogo_id)
                 (palpites db) with
      | Some existente => Palpite.pontuacao_recebida existente
      | None => 0
      end in
    let palpite :=
      Palpite.mk participante_id jogo_id escolha placar1 placar2 pontos in
    (inteiro_sqlite placar1 = true -> inteiro_sqlite placar2 = true ->
     (participantes db' = participantes db /\ jogos db' = jogos db /\
      pontuacoes_rodada db' = pontuacoes_rodada db) /\
     find (do_participante_no_jogo participante_id jogo_id) (palpites db')
     = Some palpite /\
     (forall p, chave_palpite p <> (participante_id, jogo_id) ->
                In p (palpites db') <-> In p (palpites db)) /\
     (NoDup (map chave_palpite (palpites db)) ->
      NoDup (map chave_palpite (palpites db')) /\
      forall p, In p (palpites db') ->
                chave_palpite p = (participante_id, jogo_id) ->
                p = palpite)) /\
    (inteiro_sqlite placar1 = false \/ inteiro_sqlite placar2 = false ->
     db' = db).
Proof.
  intros int_ ja_comecou pid id escolha p1s p2s a b jogo db
         He H1 H2 Hb Hj Hi1 Hi2 db' pontos palpite.
  split.
  2:{ intros Hc. subst db'. unfold palpitar.
      apply String.eqb_neq in He, H1, H2. rewrite He, H1, H2. simpl.
      rewrite Hb, Hj, Hi1, Hi2.
      destruct Hc as [-> | ->]; [reflexivity|].
      now rewrite andb_false_r. }
  intros Hc1 Hc2.
  pose proof (buscar_jogo_id _ _ _ Hb) as Hid.
  assert (Hf : do_participante_no_jogo pid id palpite = true)
    by (now apply do_participante_no_jogo_iff).
  assert (E : db' =
              com_palpites db
                (match find (do_participante_no_jogo pid id) (palpites db)
                 with
                 | Some _ =>
                     substituir_primeira (do_participante_no_jogo pid id)
                       palpite (palpites db)
                 | None => palpites db ++ [palpite]
                 end)).
  { subst db'. unfold palpitar.
    apply String.eqb_neq in He, H1, H2. rewrite He, H1, H2. simpl.
    rewrite Hb, Hj, Hi1, Hi2, Hc1, Hc2, Hid. subst palpite pontos.
    cbn [andb].
    destruct (find (do_participante_no_jogo pid id) (palpites db))
      as [e|] eqn:F; [|reflexivity].
    apply find_some in F as [_ F].
    apply do_participante_no_jogo_iff in F. unfold chave_palpite in F.
    injection F as -> ->. reflexivity. }
  rewrite E. clear E db'.
  assert (Hfind : find (do_participante_no_jogo pid id)
                    (palpites
                       (com_palpites db
                          match
                            find (do_participante_no_jogo pid id)
                              (palpites db)
                          with
                          | Some _ =>
                              substituir_primeira
                                (do_participante_no_jogo pid id) palpite
                                (palpites db)
                          | None => palpites db ++ [palpite]
                          end)) = Some palpite).
  { simpl.
    destruct (find (do_participante_no_jogo pid id) (palpites db))
      as [e|] eqn:F.
    - exact (find_substituir_primeira _ _ Hf _ _ F).
    - now rewrite find_app_novo, F, Hf. }
  assert (Hchave : forall x, do_participante_no_jogo pid id x = true ->
                             chave_palpite x = chave_palpite palpite).
  { intros x Hx. now apply do_participante_no_jogo_iff in Hx. }
  split; [repeat split|]. split; [exact Hfind|]. split.
  - intros p Hp. simpl.
    assert (Hfp : do_participante_no_jogo pid id p = false).
    { destruct (do_participante_no_jogo pid id p) eqn:Ep; [|reflexivity].
      apply do_participante_no_jogo_iff in Ep. contradiction. }
    destruct (find (do_participante_no_jogo pid id) (palpites db)).
    + now apply In_substituir_primeira_fora.
    + rewrite in_app_iff. simpl. split; [|tauto].
      intros [H|[<-|[]]]; [exact H|]. congruence.
  - intros Hnd.
    assert (Hnd' : NoDup
                     (map chave_palpite
                        (palpites
                           (com_palpites db
                              match
                                find (do_participante_no_jogo pid id)
                                  (palpites db)
                              with
                              | Some _ =>
                                  substituir_primeira
                                    (do_participante_no_jogo pid id)
                                    palpite (palpites db)
                              | None => palpites db ++ [palpite]
                              end)))).
    { simpl.
      destruct (find (do_participante_no_jogo pid id) (palpites db))
        as [e|] eqn:F.
      - now rewrite (map_substituir_primeira _ chave_palpite palpite Hchave).
      - rewrite map_app. simpl.
        apply (Permutation_NoDup
                 (l := (pid, id) :: map chave_palpite (palpites db))).
        + apply Permutation_cons_append.
        + constructor; [|exact Hnd]. intros Hin.
          apply in_map_iff in Hin as [x [Hk Hx]].
          pose proof (find_none _ _ F _ Hx) as Hfx.
          apply do_participante_no_jogo_iff in Hk. congruence. }
    split; [exact Hnd'|].
    intros p Hp Hk.
    apply (NoDup_map_In_inj chave_palpite _ _ _ Hnd' Hp);
      [|exact Hk].
    apply find_some in Hfind as [Hin _]. exact Hin.
Qed.

(** * The further properties on the example stores *)

Lemma calcular_pontuacoes_validas_witness :
  com_resultado jogo1 /\
  In (Palpite.mk 1 1 "time1_vence" 27 20 5)
     (palpites
        (snd (AppCopy8.calcular_e_atualizar_pontuacoes_jogo jogo1
                db_rodada1))) /\
  pontuacao_valida
    (Palpite.pontuacao_recebida (Palpite.mk 1 1 "time1_vence" 27 20 5)).
Proof.
  assert (Hres : com_resultado jogo1)
    by (exists "time1_vence", 27, 20; repeat split).
  assert (Hin : In (Palpite.mk 1 1 "time1_vence" 27 20 5)
                   (palpites
                      (snd (AppCopy8.calcular_e_atualizar_pontuacoes_jogo
                              jogo1 db_rodada1))))
    by (left; reflexivity).
  destruct (calcular_pontuacoes_validas jogo1 db_rodada1) as [Hval _].
  split; [exact Hres|split; [exact Hin|]].
  apply Hval; [exact Hres|left; exact Hin|reflexivity].
Defined.

Lemma app_calcular_pontos_f1_idempotente_witness :
  App.calcular_pontos_f1_por_rodada 2
    (App.calcular_pontos_f1_por_rodada 2 db_rodada2)
  = App.calcular_pontos_f1_por_rodada 2 db_rodada2.
Proof.
  apply app_calcular_pontos_f1_idempotente.
  - apply chave_primaria_tres. reflexivity.
  - exact chave_unica_rodada2.
Defined.

Lemma calcular_pontos_f1_chave_unica_witness :
  chave_unica
    (pontuacoes_rodada (AppCopy8.calcular_pontos_f1_por_rodada 2 db_rodada2))
  /\
  chave_unica
    (pontuacoes_rodada (App.calcular_pontos_f1_por_rodada 2 db_rodada2)).
Proof.
  apply calcular_pontos_f1_chave_unica.
  - apply chave_primaria_tres. reflexivity.
  - exact chave_unica_rodada2.
Defined.

Lemma pontos_nao_negativos_rodada2 : pontos_nao_negativos db_rodada2.
Proof.
  intros palpite Hin. simpl in Hin.
  repeat (destruct Hin as [<-|Hin]; [simpl; lia|]). destruct Hin.
Qed.

Lemma pontos_f1_pela_colocacao_witness :
  In (PontuacaoRodada.mk 3 2 15)
     (pontuacoes_rodada (AppCopy8.calcular_pontos_f1_por_rodada 2 db_rodada2))
  /\
  In (PontuacaoRodada.mk 3 2 15)
     (pontuacoes_rodada (App.calcular_pontos_f1_por_rodada 2 db_rodada2)).
Proof.
  destruct (pontos_f1_pela_colocacao 2 db_rodada2 3 "Carla" 7)
    as [H8 [HA _]].
  - apply chave_primaria_tres. reflexivity.
  - exact pontos_nao_negativos_rodada2.
  - vm_compute. tauto.
  - discriminate.
  - split; [exact H8|exact HA].
Defined.

Lemma pontos_f1_monotonos_witness :
  exists pontos1 pontos2,
    In (PontuacaoRodada.mk 1 2 pontos1)
       (pontuacoes_rodada
          (AppCopy8.calcular_pontos_f1_por_rodada 2 db_rodada2)) /\
    In (PontuacaoRodada.mk 3 2 pontos2)
       (pontuacoes_rodada
          (AppCopy8.calcular_pontos_f1_por_rodada 2 db_rodada2)) /\
    pontos2 <= pontos1.
Proof.
  destruct (pontos_f1_monotonos 2 db_rodada2 1 3 "Ana" "Carla" 10 7)
    as [pontos1 [pontos2 [[H1 H2] [_ [Hle _]]]]].
  - apply chave_primaria_tres. reflexivity.
  - exact pontos_nao_negativos_rodada2.
  - vm_compute. tauto.
  - vm_compute. tauto.
  - discriminate.
  - discriminate.
  - lia.
  - exists pontos1, pontos2. repeat split; assumption.
Defined.

Lemma definir_resultado_recusa_witness :
  RotasCopy8.definir_resultado int_exemplo (Some 3) (Some "time1_vence")
    (Some "vinte") (Some "14") db_rodada1 = db_rodada1.
Proof.
  apply definir_resultado_recusa.
  do 5 right. left. exists "vinte". split; reflexivity.
Defined.

Lemma definir_resultado_efeito_witness :
  (buscar_jogo 3
     (RotasCopy8.definir_resultado int_exemplo (Some 3) (Some "time1_vence")
        (Some "21") (Some "14") db_rodada1) =
     Some (jogo_com_resultado jogo3 (Some "time1_vence") (Some 21) (Some 14))
   /\
   filter (da_semana 1)
     (pontuacoes_rodada
        (RotasCopy8.definir_resultado int_exemplo (Some 3)
           (Some "time1_vence") (Some "21") (Some "14") db_rodada1)) =
   map (linha_rodada 1)
     (classificacao_da_rodada 1
        (RotasCopy8.definir_resultado int_exemplo (Some 3)
           (Some "time1_vence") (Some "21") (Some "14") db_rodada1))) /\
  RotasCopy8.definir_resultado int_exemplo (Some 3) (Some "time1_vence")
    (Some "9223372036854775808") (Some "14") db_rodada1 = db_rodada1.
Proof.
  split.
  - destruct (definir_resultado_efeito int_exemplo 3 "time1_vence" "21" "14"
                21 14 jogo3 db_rodada1)
      as [Hcabe _];
      [discriminate|discriminate|discriminate
      |reflexivity|reflexivity|reflexivity|].
    destruct Hcabe as [Hb [_ [_ [_ [_ Hrank]]]]];
      [reflexivity|reflexivity|].
    split; [exact Hb|apply Hrank; reflexivity].
  - destruct (definir_resultado_efeito int_exemplo 3 "time1_vence"
                "9223372036854775808" "14" 9223372036854775808 14
                jogo3 db_rodada1)
      as [_ Hestouro];
      [discriminate|discriminate|discriminate
      |reflexivity|reflexivity|reflexivity|].
    apply Hestouro. left. reflexivity.
Defined.

Lemma recalcular_rodadas_em_qualquer_ordem_witness :
  mesma_base (RotasCopy8.recalcular_rodadas [2; 4] db_rodada2)
             (RotasCopy8.recalcular_rodadas [4; 2] db_rodada2).
Proof.
  apply recalcular_rodadas_em_qualquer_ordem. apply perm_swap.
Defined.

Lemma importar_resultados_ignorados_witness :
  RotasCopy8.importar_resultados_json_route
    [resultado_desconhecido; mkResultadoJson None None None None] db_rodada5
  = db_rodada5.
Proof.
  apply importar_resultados_ignorados.
  constructor; [right; reflexivity|].
  constructor; [exact I|constructor].
Defined.

Lemma importar_resultado_apagado_witness :
  (palpites (RotasCopy8.importar_resultados_json_route [resultado_apagado]
               db_rodada5)
   = [Palpite.mk 1 9 "time1_vence" 27 20 0;
      Palpite.mk 2 9 "time2_vence" 20 27 0] /\
   palpites (RotasApp.importar_resultados_json_route [resultado_apagado]
               db_rodada5)
   = [Palpite.mk 1 9 "time1_vence" 27 20 5;
      Palpite.mk 2 9 "time2_vence" 20 27 0] /\
   pontuacoes_rodada
     (RotasCopy8.importar_resultados_json_route [resultado_apagado]
        db_rodada5)
   = [PontuacaoRodada.mk 1 5 25]) /\
  RotasCopy8.importar_resultados_json_route [resultado_fora_do_limite]
    db_rodada5 = db_rodada5 /\
  RotasApp.importar_resultados_json_route [resultado_fora_do_limite]
    db_rodada5 = db_rodada5.
Proof.
  split.
  - destruct (importar_resultado_apagado "2024_05_KC_BAL" resultado_apagado
                jogo9 db_rodada5)
      as [Hcabe _];
      [discriminate|reflexivity|reflexivity|now left|].
    destruct Hcabe as [_ [[H8 HA] [Hr _]]]; [reflexivity|reflexivity|].
    rewrite H8, HA, Hr. repeat split.
  - destruct (importar_resultado_apagado "2024_05_KC_BAL"
                resultado_fora_do_limite jogo9 db_rodada5)
      as [_ Hestouro];
      [discriminate|reflexivity|reflexivity|now left|].
    apply Hestouro. left. reflexivity.
Defined.

Lemma gerenciar_jogos_excluir_efeito_witness :
  palpites (RotasCopy8.gerenciar_jogos_excluir 9 db_rodada5) = [] /\
  pontuacoes_rodada (RotasCopy8.gerenciar_jogos_excluir 9 db_rodada5)
  = [PontuacaoRodada.mk 1 5 25].
Proof.
  destruct (gerenciar_jogos_excluir_efeito 9 db_rodada5) as [_ H].
  destruct (H jogo9 eq_refl) as [_ [Hp [_ [Hj Hr]]]].
  split; [rewrite Hp; reflexivity|].
  rewrite Hr; [reflexivity|].
  intros j Hin. apply Hj in Hin; [|simpl; sem_repeticao].
  destruct Hin as [[<-|[]] Hid]. now elim Hid.
Defined.

Lemma set_config_get_config_witness :
  NoDup (map Configuracao.chave
           (set_config chave_da_semana "3"
              [Configuracao.mk chave_da_semana "2"])).
Proof.
  destruct (set_config_get_config chave_da_semana "3"
              [Configuracao.mk chave_da_semana "2"]) as [_ [_ [_ H]]].
  apply H. simpl. sem_repeticao.
Defined.

Lemma semana_a_exibir_automatica_witness :
  todos_jogos_semana_finalizados (semana_a_exibir [] db_rodada1) db_rodada1
  = false.
Proof.
  destruct (semana_a_exibir_automatica [] db_rodada1) as [H _];
    [now left|].
  destruct H as [_ [Hnao _]]; [|exact Hnao].
  exists jogo3. split; [simpl; tauto|reflexivity].
Defined.


Lemma palpitar_recusa_witness :
  palpitar int_exemplo (fun _ => true) 1 (Some 3) (Some "time1_vence")
    (Some "21") (Some "14") db_rodada1 = db_rodada1.
Proof.
  apply palpitar_recusa. do 5 right. left.
  exists 3, jogo3. repeat split.
Defined.

Lemma palpitar_aceita_witness :
  find (do_participante_no_jogo 2 3)
    (palpites
       (palpitar int_exemplo (fun _ => false) 2 (Some 3) (Some "empate")
          (Some "17") (Some "17") db_rodada1))
  = Some (Palpite.mk 2 3 "empate" 17 17 2) /\
  palpitar int_exemplo (fun _ => false) 2 (Some 3) (Some "empate")
    (Some "17") (Some "9223372036854775808") db_rodada1 = db_rodada1.
Proof.
  split.
  - destruct (palpitar_aceita int_exemplo (fun _ => false) 2 3 "empate"
                "17" "17" 17 17 jogo3 db_rodada1)
      as [Hcabe _];
      [discriminate|discriminate|discriminate
      |reflexivity|reflexivity|reflexivity|reflexivity|].
    destruct Hcabe as [_ [Hfind _]]; [reflexivity|reflexivity|].
    exact Hfind.
  - destruct (palpitar_aceita int_exemplo (fun _ => false) 2 3 "empate"
                "17" "9223372036854775808" 17 9223372036854775808
                jogo3 db_rodada1)
      as [_ Hestouro];
      [discriminate|discriminate|discriminate
      |reflexivity|reflexivity|reflexivity|reflexivity|].
    apply Hestouro. right. reflexivity.
Defined.
